(** * micro_benchmarks.py: option validation, argument assembly and stage sequencing

    A shallow embedding of [src/scripts/micro_benchmarks.py].  Python [str]
    values are [string]s, Python lists are [list]s, exceptions are values of
    [exn] threaded through a small state-and-exception monad, and every call
    that leaves the script (the logger, the file system, the [dotnet] tool) is
    recorded as an [event] in a trace. *)

From Stdlib Require Import Ascii String.
From stdpp Require Import gmap strings list sorting.

Open Scope string_scope.
Open Scope list_scope.

Set Warnings "-clear-no-such-hyp".

(** ** Outcomes of Python code that may raise *)

Inductive result (E A : Type) : Type :=
| Ok (a : A)
| Raise (e : E).
Arguments Ok {E A} a.
Arguments Raise {E A} e.

(** ** The Python runtime and the host

    [str.casefold] and [str.lower] are Unicode tables of the interpreter, and
    the order in which a [set] yields its elements depends on the string hash
    of the running process: the script relies on them only through their
    contracts, which is how they appear here. *)

Class PyRuntime : Type := {
  (** [str.casefold] *)
  casefold : string → string;
  (** [str.lower] *)
  lower : string → string;
  (** [list(set(values))]: the elements of [values], each once, in the set's
      iteration order. *)
  set_to_list : list string → list string;
  set_to_list_NoDup : ∀ values, NoDup (set_to_list values);
  set_to_list_elem : ∀ values x, x ∈ set_to_list values ↔ x ∈ values
}.

Class Host : Type := {
  (** [sys.platform] *)
  platform : string;
  (** [os.path.abspath], [os.path.isfile], [os.path.join] *)
  abspath : string → string;
  isfile : string → bool;
  path_join : string → string → string;
  (** [performance.common.get_repo_root_path()] *)
  repo_root : string;
  (** the empty path names no file *)
  isfile_nonempty : ∀ p, isfile p = true → p ≠ ""
}.

(** Truth value of a Python object used as a condition. *)
Definition truthy_str (o : option string) : bool :=
  match o with Some s => negb (String.eqb s "") | None => false end.

Definition truthy_list {A} (o : option (list A)) : bool :=
  match o with Some (_ :: _) => true | _ => false end.

(** [sep.join(l)] *)
Definition join (sep : string) (l : list string) : string := String.concat sep l.

(** [c * n] for a one-character string *)
Fixpoint str_repeat (c : ascii) (n : nat) : string :=
  match n with O => "" | S n' => String c (str_repeat c n') end.

(** [needle in haystack] on strings *)
Fixpoint substring_of (needle haystack : string) : bool :=
  String.prefix needle haystack ||
  match haystack with
  | "" => false
  | String _ rest => substring_of needle rest
  end.

(** The double-quote character. *)
Definition dquote : ascii := "034"%char.

(** [repr(s)] of a [str] whose characters are printable or ASCII controls:
    single quotes unless the text holds a single quote and no double quote. *)
Definition hex_digit (n : N) : ascii :=
  ascii_of_N (if (n <? 10)%N then 48 + n else 87 + n)%N.

Definition repr_char (quote : ascii) (c : ascii) : string :=
  let n := N_of_ascii c in
  if bool_decide (c = quote) || bool_decide (c = "\"%char) then
    String "\" (String c "")
  else if (n =? 9)%N then "\t"
  else if (n =? 10)%N then "\n"
  else if (n =? 13)%N then "\r"
  else if (n <? 32)%N || (n =? 127)%N then
    String "\" (String "x" (String (hex_digit (n / 16)) (String (hex_digit (n mod 16)) "")))
  else String c "".

Fixpoint str_contains (c : ascii) (s : string) : bool :=
  match s with
  | "" => false
  | String d rest => bool_decide (c = d) || str_contains c rest
  end.

Fixpoint repr_body (quote : ascii) (s : string) : string :=
  match s with
  | "" => ""
  | String c rest => repr_char quote c +:+ repr_body quote rest
  end.

Definition repr (s : string) : string :=
  let quote : ascii :=
    if str_contains "'" s && negb (str_contains dquote s) then dquote else "'"%char in
  String quote (repr_body quote s) +:+ String quote "".

(** ** Target frameworks *)

Module TargetFrameworkAction.

(** The dictionary literal, in insertion order. *)
Definition __get_framework_channel_map : list (string * string) :=
  [ ("netcoreapp3.0", "master");
    ("netcoreapp2.2", "2.2");
    ("netcoreapp2.1", "2.1");
    ("netcoreapp2.0", "2.0") ].

Definition get_supported_target_frameworks `{Host} : list string :=
  let frameworks := __get_framework_channel_map.*1 in
  if String.eqb platform "win32" then frameworks ++ ["net461"] else frameworks.

Definition get_channel (framework : string) : option string :=
  snd <$> List.find (λ kv, String.eqb (fst kv) framework) __get_framework_channel_map.

(** The loop that collects the values outside the supported list. *)
Fixpoint wrong_choices (supported values : list string) : list string :=
  match values with
  | [] => []
  | value :: rest =>
      if bool_decide (value ∈ supported)
      then wrong_choices supported rest
      else value :: wrong_choices supported rest
  end.

(** [__call__(self, parser, namespace, values)]: the new value of the
    attribute [frameworks] of the namespace, given its current value, or the
    message of the [ArgumentError] raised. *)
Definition __call__ `{PyRuntime} `{Host}
    (current : option (list string)) (values : list string)
  : result string (option (list string)) :=
  match values with
  | [] => Ok current
  | _ :: _ =>
      let wrong := wrong_choices get_supported_target_frameworks values in
      match wrong with
      | _ :: _ => Raise ("Invalid choice(s): " +:+ join ", " wrong)
      | [] => Ok (Some (set_to_list values))
      end
  end.

End TargetFrameworkAction.

(** ** Build configurations *)

Definition get_supported_configurations : list string := ["Release"; "Debug"].

(** [dotnet_configuration]: the first supported configuration equal to the
    input up to case folding, or the message of the [ArgumentTypeError]. *)
Fixpoint dotnet_configuration_loop `{PyRuntime}
    (configs : list string) (configuration : string) : result string string :=
  match configs with
  | [] => Raise ("Unknown configuration: " +:+ configuration +:+ ".")
  | config :: rest =>
      if bool_decide (casefold config = casefold configuration)
      then Ok config
      else dotnet_configuration_loop rest configuration
  end.

Definition dotnet_configuration `{PyRuntime} (configuration : string)
  : result string string :=
  dotnet_configuration_loop get_supported_configurations configuration.

(** [__valid_file_path] *)
Definition __valid_file_path `{Host} (file_path : string) : result string string :=
  let file_path := abspath file_path in
  if isfile file_path then Ok file_path
  else Raise (file_path +:+ " does not exist.").

(** ** The pass-through argument string

    [csv.reader(StringIO(user_input), delimiter=' ')]: the reader of the
    [_csv] module with the default dialect otherwise (quote character the
    double quote, doubled quotes, no escape character, no skipping of initial
    spaces, not strict).  The states that only an escape character can reach
    are left out. *)

Module csv.

Inductive ParserState : Type :=
| START_RECORD
| START_FIELD
| IN_FIELD
| IN_QUOTED_FIELD
| QUOTE_IN_QUOTED_FIELD
| EAT_CRNL.

#[global] Instance ParserState_eq_dec : EqDecision ParserState.
Proof. solve_decision. Defined.

Record Reader : Type := mkReader {
  state : ParserState;
  field : string;
  fields : list string
}.

Definition delimiter : ascii := " "%char.
Definition quotechar : ascii := dquote.
Definition field_limit : N := 131072.

Definition is_newline (c : ascii) : bool :=
  bool_decide (c = "010"%char) || bool_decide (c = "013"%char).

Definition parse_reset : Reader :=
  {| state := START_RECORD; field := ""; fields := [] |}.

Definition set_state (s : ParserState) (r : Reader) : Reader :=
  {| state := s; field := field r; fields := fields r |}.

Definition parse_save_field (r : Reader) : Reader :=
  {| state := state r; field := ""; fields := fields r ++ [field r] |}.

Definition parse_add_char (r : Reader) (c : ascii) : result string Reader :=
  if (field_limit <=? N.of_nat (String.length (field r)))%N
  then Raise "field larger than field limit (131072)"
  else Ok {| state := state r; field := field r +:+ String c ""; fields := fields r |}.

(** The body of [case START_FIELD]; [None] is the end of the line. *)
Definition start_field (r : Reader) (c : option ascii) : result string Reader :=
  match c with
  | None => Ok (set_state START_RECORD (parse_save_field r))
  | Some ch =>
      if is_newline ch then Ok (set_state EAT_CRNL (parse_save_field r))
      else if bool_decide (ch = quotechar) then Ok (set_state IN_QUOTED_FIELD r)
      else if bool_decide (ch = delimiter) then Ok (parse_save_field r)
      else
        match parse_add_char r ch with
        | Ok r' => Ok (set_state IN_FIELD r')
        | Raise e => Raise e
        end
  end.

Definition parse_process_char (r : Reader) (c : option ascii) : result string Reader :=
  match state r with
  | START_RECORD =>
      match c with
      | None => Ok r
      | Some ch =>
          if is_newline ch then Ok (set_state EAT_CRNL r)
          else start_field (set_state START_FIELD r) c
      end
  | START_FIELD => start_field r c
  | IN_FIELD =>
      match c with
      | None => Ok (set_state START_RECORD (parse_save_field r))
      | Some ch =>
          if is_newline ch then Ok (set_state EAT_CRNL (parse_save_field r))
          else if bool_decide (ch = delimiter)
          then Ok (set_state START_FIELD (parse_save_field r))
          else parse_add_char r ch
      end
  | IN_QUOTED_FIELD =>
      match c with
      | None => Ok r
      | Some ch =>
          if bool_decide (ch = quotechar) then Ok (set_state QUOTE_IN_QUOTED_FIELD r)
          else parse_add_char r ch
      end
  | QUOTE_IN_QUOTED_FIELD =>
      match c with
      | None => Ok (set_state START_RECORD (parse_save_field r))
      | Some ch =>
          if bool_decide (ch = quotechar) then
            match parse_add_char r ch with
            | Ok r' => Ok (set_state IN_QUOTED_FIELD r')
            | Raise e => Raise e
            end
          else if bool_decide (ch = delimiter)
          then Ok (set_state START_FIELD (parse_save_field r))
          else if is_newline ch then Ok (set_state EAT_CRNL (parse_save_field r))
          else
            match parse_add_char r ch with
            | Ok r' => Ok (set_state IN_FIELD r')
            | Raise e => Raise e
            end
      end
  | EAT_CRNL =>
      match c with
      | None => Ok (set_state START_RECORD r)
      | Some ch =>
          if is_newline ch then Ok r
          else Raise "new-line character seen in unquoted field - do you need to open the file in universal-newline mode?"
      end
  end.

(** The characters of one line, in order. *)
Fixpoint process_line (r : Reader) (line : string) : result string Reader :=
  match line with
  | "" => Ok r
  | String c rest =>
      match parse_process_char r (Some c) with
      | Ok r' => process_line r' rest
      | Raise e => Raise e
      end
  end.

(** Iterating over a [StringIO]: the text cut after each line feed. *)
Fixpoint readlines (s : string) : list string :=
  match s with
  | "" => []
  | String c rest =>
      if bool_decide (c = "010"%char) then String c "" :: readlines rest
      else
        match readlines rest with
        | [] => [String c ""]
        | line :: lines => String c line :: lines
        end
  end.

(** [Reader_iternext] from the reader [r]: lines are consumed until the
    parser is back at the start of a record.  [Ok None] is [StopIteration]. *)
Fixpoint iternext (r : Reader) (lines : list string)
  : result string (option (list string)) :=
  match lines with
  | [] =>
      if negb (String.eqb (field r) "") || bool_decide (state r = IN_QUOTED_FIELD)
      then Ok (Some (fields (parse_save_field r)))
      else Ok None
  | line :: rest =>
      match process_line r line with
      | Raise e => Raise e
      | Ok r1 =>
          match parse_process_char r1 None with
          | Raise e => Raise e
          | Ok r2 =>
              if bool_decide (state r2 = START_RECORD) then Ok (Some (fields r2))
              else iternext r2 rest
          end
      end
  end.

End csv.

(** [__get_bdn_arguments]: the first record the reader yields, or the empty
    list when it yields none; the message of a [csv.Error] otherwise. *)
Definition __get_bdn_arguments (user_input : string) : result string (list string) :=
  match csv.iternext csv.parse_reset (csv.readlines user_input) with
  | Ok (Some args) => Ok args
  | Ok None => Ok []
  | Raise e => Raise e
  end.

(** ** The argument parser

    The attributes of the namespace [parse_args] returns, with the defaults of
    [add_arguments]; [None] is Python's [None]. *)

Record Namespace : Type := mkNamespace {
  args_verbose : bool;
  args_configuration : string;
  args_frameworks : option (list string);
  args_incremental : string;
  args_enable_pmc : bool;
  args_category : option string;
  args_filter : option (list string);
  args_corerun : option string;
  args_cli : option string;
  args_bdn_arguments : option (list string)
}.

Definition default_namespace : Namespace :=
  {| args_verbose := false;
     args_configuration := "Release";
     args_frameworks := None;
     args_incremental := "yes";
     args_enable_pmc := false;
     args_category := None;
     args_filter := None;
     args_corerun := None;
     args_cli := None;
     args_bdn_arguments := None |}.

(** The command line as [argparse] has matched it against the declared
    options: one entry per option occurrence, left to right, with the
    argument strings it consumed.  [opt_unrecognized] is an argument that
    matches no declared option. *)
Inductive cli_option : Type :=
| opt_help
| opt_verbose
| opt_configuration (value : string)
| opt_frameworks (values : list string)
| opt_incremental (value : string)
| opt_enable_hardware_counters
| opt_category (value : string)
| opt_filter (values : list string)
| opt_corerun (value : string)
| opt_cli (value : string)
| opt_bdn_arguments (value : string)
| opt_unrecognized (arg : string).

(** How [parse_args] stops without returning a namespace. *)
Inductive parse_abort : Type :=
| parser_error (message : string)
    (** [parser.error]: usage and message on stderr, then [sys.exit(2)] *)
| parser_help
    (** [-h]: the help text on stdout, then [sys.exit(0)] *)
| type_exception (cls message : string)
    (** an exception of a [type] function that [argparse] does not catch *).

(** [str(ArgumentError(action, message))] *)
Definition argument_error (argument_name message : string) : parse_abort :=
  parser_error ("argument " +:+ argument_name +:+ ": " +:+ message).

(** [_check_value]: a converted value must be one of the [choices]. *)
Definition _check_value (argument_name : string) (choices : list string) (value : string)
  : result parse_abort unit :=
  if bool_decide (value ∈ choices) then Ok ()
  else Raise (argument_error argument_name
                ("invalid choice: " +:+ repr value +:+ " (choose from " +:+
                 join ", " (repr <$> choices) +:+ ")")).

Fixpoint _check_values (argument_name : string) (choices values : list string)
  : result parse_abort unit :=
  match values with
  | [] => Ok ()
  | v :: rest =>
      match _check_value argument_name choices v with
      | Ok _ => _check_values argument_name choices rest
      | Raise e => Raise e
      end
  end.

(** [_get_value] with a [type] function that raises [ArgumentTypeError]. *)
Definition _get_value (argument_name : string) (converted : result string string)
  : result parse_abort string :=
  match converted with
  | Ok v => Ok v
  | Raise message => Raise (argument_error argument_name message)
  end.

Definition set_frameworks (v : option (list string)) (ns : Namespace) : Namespace :=
  {| args_verbose := args_verbose ns; args_configuration := args_configuration ns;
     args_frameworks := v; args_incremental := args_incremental ns;
     args_enable_pmc := args_enable_pmc ns; args_category := args_category ns;
     args_filter := args_filter ns; args_corerun := args_corerun ns;
     args_cli := args_cli ns; args_bdn_arguments := args_bdn_arguments ns |}.

(** One option occurrence: conversion of the argument strings by the option's
    [type], the [choices] check on every converted value, then the option's
    action on the namespace. *)
Definition take_action `{PyRuntime} `{Host} (ns : Namespace) (o : cli_option)
  : result parse_abort Namespace :=
  match o with
  | opt_help => Raise parser_help
  | opt_verbose =>
      Ok {| args_verbose := true; args_configuration := args_configuration ns;
            args_frameworks := args_frameworks ns; args_incremental := args_incremental ns;
            args_enable_pmc := args_enable_pmc ns; args_category := args_category ns;
            args_filter := args_filter ns; args_corerun := args_corerun ns;
            args_cli := args_cli ns; args_bdn_arguments := args_bdn_arguments ns |}
  | opt_configuration value =>
      match _get_value "-c/--configuration" (dotnet_configuration value) with
      | Raise e => Raise e
      | Ok v =>
          match _check_value "-c/--configuration" get_supported_configurations v with
          | Raise e => Raise e
          | Ok _ =>
              Ok {| args_verbose := args_verbose ns; args_configuration := v;
                    args_frameworks := args_frameworks ns;
                    args_incremental := args_incremental ns;
                    args_enable_pmc := args_enable_pmc ns; args_category := args_category ns;
                    args_filter := args_filter ns; args_corerun := args_corerun ns;
                    args_cli := args_cli ns; args_bdn_arguments := args_bdn_arguments ns |}
          end
      end
  | opt_frameworks values =>
      match values with
      | [] => Raise (argument_error "-f/--frameworks" "expected at least one argument")
      | _ :: _ =>
          match _check_values "-f/--frameworks"
                  TargetFrameworkAction.get_supported_target_frameworks values with
          | Raise e => Raise e
          | Ok _ =>
              match TargetFrameworkAction.__call__ (args_frameworks ns) values with
              | Raise message => Raise (argument_error "-f/--frameworks" message)
              | Ok v => Ok (set_frameworks v ns)
              end
          end
      end
  | opt_incremental value =>
      match _check_value "--incremental" ["yes"; "no"] value with
      | Raise e => Raise e
      | Ok _ =>
          Ok {| args_verbose := args_verbose ns; args_configuration := args_configuration ns;
                args_frameworks := args_frameworks ns; args_incremental := value;
                args_enable_pmc := args_enable_pmc ns; args_category := args_category ns;
                args_filter := args_filter ns; args_corerun := args_corerun ns;
                args_cli := args_cli ns; args_bdn_arguments := args_bdn_arguments ns |}
      end
  | opt_enable_hardware_counters =>
      Ok {| args_verbose := args_verbose ns; args_configuration := args_configuration ns;
            args_frameworks := args_frameworks ns; args_incremental := args_incremental ns;
            args_enable_pmc := true; args_category := args_category ns;
            args_filter := args_filter ns; args_corerun := args_corerun ns;
            args_cli := args_cli ns; args_bdn_arguments := args_bdn_arguments ns |}
  | opt_category value =>
      match _check_value "--category" ["coreclr"; "corefx"] (lower value) with
      | Raise e => Raise e
      | Ok _ =>
          Ok {| args_verbose := args_verbose ns; args_configuration := args_configuration ns;
                args_frameworks := args_frameworks ns; args_incremental := args_incremental ns;
                args_enable_pmc := args_enable_pmc ns; args_category := Some (lower value);
                args_filter := args_filter ns; args_corerun := args_corerun ns;
                args_cli := args_cli ns; args_bdn_arguments := args_bdn_arguments ns |}
      end
  | opt_filter values =>
      match values with
      | [] => Raise (argument_error "--filter" "expected at least one argument")
      | _ :: _ =>
          Ok {| args_verbose := args_verbose ns; args_configuration := args_configuration ns;
                args_frameworks := args_frameworks ns; args_incremental := args_incremental ns;
                args_enable_pmc := args_enable_pmc ns; args_category := args_category ns;
                args_filter := Some values; args_corerun := args_corerun ns;
                args_cli := args_cli ns; args_bdn_arguments := args_bdn_arguments ns |}
      end
  | opt_corerun value =>
      match _get_value "--corerun" (__valid_file_path value) with
      | Raise e => Raise e
      | Ok v =>
          Ok {| args_verbose := args_verbose ns; args_configuration := args_configuration ns;
                args_frameworks := args_frameworks ns; args_incremental := args_incremental ns;
                args_enable_pmc := args_enable_pmc ns; args_category := args_category ns;
                args_filter := args_filter ns; args_corerun := Some v;
                args_cli := args_cli ns; args_bdn_arguments := args_bdn_arguments ns |}
      end
  | opt_cli value =>
      match _get_value "--cli" (__valid_file_path value) with
      | Raise e => Raise e
      | Ok v =>
          Ok {| args_verbose := args_verbose ns; args_configuration := args_configuration ns;
                args_frameworks := args_frameworks ns; args_incremental := args_incremental ns;
                args_enable_pmc := args_enable_pmc ns; args_category := args_category ns;
                args_filter := args_filter ns; args_corerun := args_corerun ns;
                args_cli := Some v; args_bdn_arguments := args_bdn_arguments ns |}
      end
  | opt_bdn_arguments value =>
      match __get_bdn_arguments value with
      | Raise message => Raise (type_exception "_csv.Error" message)
      | Ok v =>
          Ok {| args_verbose := args_verbose ns; args_configuration := args_configuration ns;
                args_frameworks := args_frameworks ns; args_incremental := args_incremental ns;
                args_enable_pmc := args_enable_pmc ns; args_category := args_category ns;
                args_filter := args_filter ns; args_corerun := args_corerun ns;
                args_cli := args_cli ns; args_bdn_arguments := Some v |}
      end
  | opt_unrecognized _ => Ok ns
  end.

Fixpoint consume_optionals `{PyRuntime} `{Host} (ns : Namespace) (argv : list cli_option)
  : result parse_abort Namespace :=
  match argv with
  | [] => Ok ns
  | o :: rest =>
      match take_action ns o with
      | Ok ns' => consume_optionals ns' rest
      | Raise e => Raise e
      end
  end.

Definition is_opt_frameworks (o : cli_option) : bool :=
  match o with opt_frameworks _ => true | _ => false end.

Definition unrecognized (argv : list cli_option) : list string :=
  omap (λ o, match o with opt_unrecognized a => Some a | _ => None end) argv.

(** [parser.parse_args(args)]: the occurrences in order, then the check of
    the required option, then the check for arguments left over. *)
Definition parse_args `{PyRuntime} `{Host} (argv : list cli_option)
  : result parse_abort Namespace :=
  match consume_optionals default_namespace argv with
  | Raise e => Raise e
  | Ok ns =>
      if negb (existsb is_opt_frameworks argv)
      then Raise (parser_error "the following arguments are required: -f/--frameworks")
      else
        match unrecognized argv with
        | [] => Ok ns
        | extras => Raise (parser_error ("unrecognized arguments: " +:+ join " " extras))
        end
  end.

(** ** Exceptions, events and the environment *)

Inductive exn : Type :=
| CalledProcessError (cmd : string) (returncode : Z)
| IOError (errno : Z) (strerror filename : string)
| SystemExit (code : Z)
| Exception (cls traceback : string)
    (** any other exception derived from [Exception] *)
| KeyboardInterrupt
    (** derived from [BaseException] only: no handler of [__main] takes it *).

Inductive log_arg : Type :=
| LStr (s : string)
| LInt (n : Z).

(** What the script does to the world outside it. *)
Inductive event : Type :=
| ValidateSupportedRuntime
| PrintHelp
| PrintUsageError (message : string)
| SetupLoggers (verbose : bool)
| DotnetInfo (verbose : bool)
| LogInfo (message : string)
| LogError (format : string) (args : list log_arg)
| RemoveDirectory (path : string)
| Restore (packages_path : string) (verbose : bool)
| Build (configuration : string) (frameworks : list string) (verbose : bool)
| Run (configuration framework : string) (verbose : bool) (args : list string).

(** The environment: given the events so far, whether the next call raises. *)
Class World : Type := respond : list event → event → option exn.

Record State : Type := mkState {
  trace : list event;
  dirs : gset string
}.

Definition initial (d : gset string) : State := {| trace := []; dirs := d |}.

Definition record (e : event) (st : State) : State :=
  {| trace := trace st ++ [e]; dirs := dirs st |}.

(** Computations that read and extend the state and may raise. *)
Definition M (A : Type) : Type := State → result exn A * State.

#[global] Instance M_ret : MRet M := λ A a st, (Ok a, st).

#[global] Instance M_bind : MBind M := λ A B f m st,
  match m st with
  | (Ok a, st') => f a st'
  | (Raise e, st') => (Raise e, st')
  end.

Definition raise {A} (e : exn) : M A := λ st, (Raise e, st).

(** [try: m except ex: handler ex] *)
Definition try_except {A} (m : M A) (handler : exn → M A) : M A := λ st,
  match m st with
  | (Ok a, st') => (Ok a, st')
  | (Raise e, st') => handler e st'
  end.

(** An effect that cannot fail (a line on a log or on the terminal). *)
Definition emit (e : event) : M unit := λ st, (Ok (), record e st).

(** A call of a collaborator, which returns nothing or raises. *)
Definition call `{World} (e : event) : M unit := λ st,
  match respond (trace st) e with
  | None => (Ok (), record e st)
  | Some x => (Raise x, record e st)
  end.

(** Modelled from the spec: [performance.common.remove_directory], which is
    not part of the sources at hand.  The spec describes it as a
    directory-removal function that is idempotent, a missing directory not
    being an error, and names a permission error during cleanup as an I/O
    failure: a directory that is absent is left alone and nothing is raised,
    one that is present is removed unless the environment raises. *)
Definition remove_directory `{World} (path : string) : M unit := λ st,
  if decide (path ∈ dirs st) then
    match respond (trace st) (RemoveDirectory path) with
    | None => (Ok (), {| trace := trace st ++ [RemoveDirectory path];
                         dirs := dirs st ∖ {[path]} |})
    | Some x => (Raise x, record (RemoveDirectory path) st)
    end
  else (Ok (), record (RemoveDirectory path) st).

(** [for x in l: body x] *)
Fixpoint for_each {A} (l : list A) (body : A → M unit) : M unit :=
  match l with
  | [] => mret ()
  | x :: rest => body x ;; for_each rest body
  end.

(** ** The stages *)

Definition __log_script_header (message : string) : M unit :=
  emit (LogInfo (str_repeat "-" (String.length message))) ;;
  emit (LogInfo message) ;;
  emit (LogInfo (str_repeat "-" (String.length message))).

(** [BENCHMARKS_CSPROJ.working_directory] *)
Definition working_directory `{Host} : string :=
  path_join (path_join (path_join repo_root "src") "benchmarks") "micro".

Definition packages `{Host} : string := path_join repo_root "packages".

Definition binary_folders `{Host} : list string :=
  [ packages; path_join working_directory "bin"; path_join working_directory "obj" ].

(** [build]; [frameworks] is what [args.frameworks] holds, a list or [None],
    and joining [None] is a [TypeError]. *)
Definition build `{Host} `{World}
    (configuration : string) (frameworks : option (list string))
    (incremental : string) (verbose : bool) : M unit :=
  (if String.eqb incremental "no" then
     __log_script_header "Removing packages, bin and obj folders." ;;
     for_each binary_folders remove_directory
   else mret ()) ;;
  __log_script_header "Restoring .NET micro benchmarks" ;;
  call (Restore packages verbose) ;;
  match frameworks with
  | None => raise (Exception "TypeError" "can only join an iterable")
  | Some frameworks =>
      __log_script_header
        ("Building .NET micro benchmarks for '" +:+ join " " frameworks +:+ "'") ;;
      call (Build configuration frameworks verbose)
  end.

Definition run `{World}
    (configuration framework : string) (verbose : bool) (args : list string) : M unit :=
  __log_script_header ("Running .NET micro benchmarks for '" +:+ framework +:+ "'") ;;
  call (Run configuration framework verbose args).

(** The list [run_args] that the loop of [__main] builds for each framework. *)
Definition run_args (args : Namespace) : list string :=
  let run_args := ["--"] in
  let run_args :=
    if truthy_str (args_category args)
    then run_args ++ ["--allCategories"; default "" (args_category args)]
    else run_args in
  let run_args :=
    if truthy_str (args_corerun args)
    then run_args ++ ["--coreRun"; default "" (args_corerun args)]
    else run_args in
  let run_args :=
    if truthy_str (args_cli args)
    then run_args ++ ["--cli"; default "" (args_cli args)]
    else run_args in
  let run_args :=
    if args_enable_pmc args
    then run_args ++ ["--counters"; "BranchMispredictions+CacheMisses+InstructionRetired"]
    else run_args in
  let run_args :=
    if truthy_list (args_filter args)
    then run_args ++ ["--filter"] ++ default [] (args_filter args)
    else run_args in
  let run_args :=
    if truthy_list (args_bdn_arguments args)
    then run_args ++ default [] (args_bdn_arguments args)
    else run_args in
  run_args.

(** ** The entry point *)

Definition __process_arguments `{PyRuntime} `{Host} (argv : list cli_option) : M Namespace :=
  match parse_args argv with
  | Ok args => mret args
  | Raise (parser_error message) => emit (PrintUsageError message) ;; raise (SystemExit 2)
  | Raise parser_help => emit PrintHelp ;; raise (SystemExit 0)
  | Raise (type_exception cls message) => raise (Exception cls message)
  end.

(** The body of the [try] statement. *)
Definition main_body `{PyRuntime} `{Host} `{World} (argv : list cli_option) : M Z :=
  call ValidateSupportedRuntime ;;
  args ← __process_arguments argv ;
  let configuration := args_configuration args in
  let frameworks := args_frameworks args in
  let incremental := args_incremental args in
  let verbose := args_verbose args in
  call (SetupLoggers verbose) ;;
  call (DotnetInfo verbose) ;;
  build configuration frameworks incremental verbose ;;
  match frameworks with
  | None => raise (Exception "TypeError" "'NoneType' object is not iterable")
  | Some frameworks =>
      for_each frameworks
        (λ framework, run configuration framework verbose (run_args args))
  end ;;
  mret 0%Z.

(** The [except] clauses, each falling through to [return 1]. *)
Definition main_handler (ex : exn) : M Z :=
  match ex with
  | CalledProcessError cmd returncode =>
      emit (LogError ("Command: " +:+ String dquote ("%s" +:+ String dquote ", exited with status: %s"))
                     [LStr cmd; LInt returncode]) ;;
      mret 1%Z
  | IOError errno strerror filename =>
      emit (LogError "I/O error (%s): %s: %s" [LInt errno; LStr strerror; LStr filename]) ;;
      mret 1%Z
  | SystemExit _ => mret 1%Z
  | Exception cls traceback =>
      emit (LogError "Unexpected error: %s" [LStr cls]) ;;
      emit (LogError traceback []) ;;
      mret 1%Z
  | KeyboardInterrupt => raise KeyboardInterrupt
  end.

Definition __main `{PyRuntime} `{Host} `{World} (argv : list cli_option) : M Z :=
  try_except (main_body argv) main_handler.

(** ** Executions as scripts

    Every stage is a fixed sequence of effects, cut short by the first one
    that raises.  [perform] runs such a sequence; the stages are shown below
    to be instances of it, which turns questions about the order of calls
    into questions about lists. *)

Inductive action : Type :=
| Emit (e : event)
| Call (e : event)
| Remove (path : string).

Definition event_of (a : action) : event :=
  match a with
  | Emit e | Call e => e
  | Remove path => RemoveDirectory path
  end.

Definition act `{World} (a : action) : M unit :=
  match a with
  | Emit e => emit e
  | Call e => call e
  | Remove path => remove_directory path
  end.

Fixpoint perform `{World} (s : list action) : M unit :=
  match s with
  | [] => mret ()
  | a :: rest => act a ;; perform rest
  end.

Definition header_script (message : string) : list action :=
  [ Emit (LogInfo (str_repeat "-" (String.length message)));
    Emit (LogInfo message);
    Emit (LogInfo (str_repeat "-" (String.length message))) ].

Definition clean_script `{Host} (incremental : string) : list action :=
  if String.eqb incremental "no"
  then header_script "Removing packages, bin and obj folders." ++ (Remove <$> binary_folders)
  else [].

Definition build_script `{Host}
    (configuration : string) (frameworks : list string)
    (incremental : string) (verbose : bool) : list action :=
  clean_script incremental ++
  header_script "Restoring .NET micro benchmarks" ++
  [Call (Restore packages verbose)] ++
  header_script ("Building .NET micro benchmarks for '" +:+ join " " frameworks +:+ "'") ++
  [Call (Build configuration frameworks verbose)].

Definition run_script
    (configuration framework : string) (verbose : bool) (args : list string) : list action :=
  header_script ("Running .NET micro benchmarks for '" +:+ framework +:+ "'") ++
  [Call (Run configuration framework verbose args)].

Definition runs_script (args : Namespace) (frameworks : list string) : list action :=
  frameworks ≫= λ framework,
    run_script (args_configuration args) framework (args_verbose args) (run_args args).

(** What [main_body] does once the arguments are parsed. *)
Definition main_script `{Host} (args : Namespace) (frameworks : list string) : list action :=
  [ Call (SetupLoggers (args_verbose args)); Call (DotnetInfo (args_verbose args)) ] ++
  build_script (args_configuration args) frameworks (args_incremental args) (args_verbose args) ++
  runs_script args frameworks.

(** The log lines of the handler that takes [ex]. *)
Definition handler_log (ex : exn) : list event :=
  match ex with
  | CalledProcessError cmd returncode =>
      [LogError ("Command: " +:+ String dquote ("%s" +:+ String dquote ", exited with status: %s"))
                [LStr cmd; LInt returncode]]
  | IOError errno strerror filename =>
      [LogError "I/O error (%s): %s: %s" [LInt errno; LStr strerror; LStr filename]]
  | SystemExit _ => []
  | Exception cls traceback =>
      [LogError "Unexpected error: %s" [LStr cls]; LogError traceback []]
  | KeyboardInterrupt => []
  end.

(** ** Classifying events *)

Definition is_log_error (e : event) : bool :=
  match e with LogError _ _ => true | _ => false end.

Definition is_remove (e : event) : bool :=
  match e with RemoveDirectory _ => true | _ => false end.

Definition is_restore (e : event) : bool :=
  match e with Restore _ _ => true | _ => false end.

Definition is_build (e : event) : bool :=
  match e with Build _ _ _ => true | _ => false end.

Definition is_run (e : event) : bool :=
  match e with Run _ _ _ _ => true | _ => false end.

(** The calls that can raise: the collaborators and the external tool. *)
Definition is_call (e : event) : bool :=
  match e with
  | ValidateSupportedRuntime | SetupLoggers _ | DotnetInfo _
  | Restore _ _ | Build _ _ _ | Run _ _ _ _ => true
  | _ => false
  end.

(** The invocations of the external tool: the Restore, Build and Run stages. *)
Definition is_stage (e : event) : bool := is_restore e || is_build e || is_run e.

(** The targets of the Run invocations of a trace, in order. *)
Definition run_targets (t : list event) : list string :=
  omap (λ e, match e with Run _ framework _ _ => Some framework | _ => None end) t.

(** The directories whose removal a trace records. *)
Definition removed (t : list event) : gset string :=
  list_to_set (omap (λ e, match e with RemoveDirectory p => Some p | _ => None end) t).

(** Whether the effect [e] raises, and what, when it comes after the events
    [history] with the directories [d] present: a call raises when the
    environment says so, the removal of a directory only if the directory is
    there, and a log line never. *)
Definition fails `{World} (d : gset string) (history : list event) (e : event) : option exn :=
  match e with
  | RemoveDirectory p => if decide (p ∈ d) then respond history e else None
  | _ => if is_call e then respond history e else None
  end.

(** The actions of the scripts: log lines are emitted, calls are called,
    directories are removed. *)
Definition well_formed (a : action) : Prop :=
  match a with
  | Emit e => is_call e = false ∧ is_remove e = false
  | Call e => is_call e = true
  | Remove _ => True
  end.

(** ** The claims' own words *)

(** The distinct elements of a list in the order of their first occurrence. *)
Fixpoint first_occurrences (l : list string) : list string :=
  match l with
  | [] => []
  | x :: rest => x :: List.filter (λ y, negb (String.eqb x y)) (first_occurrences rest)
  end.

(** A flag followed by its value, when the option is set. *)
Definition flag_with_value (flag : string) (value : option string) : list string :=
  match value with Some v => [flag; v] | None => [] end.

(** A flag followed by all its values, when the option is set. *)
Definition flag_with_values (flag : string) (values : option (list string)) : list string :=
  match values with Some vs => flag :: vs | None => [] end.

(** The argument group of a Run invocation in the order the specification
    fixes: category, alternate runtime, alternate tool, hardware counters,
    name filters, pass-through tokens. *)
Definition run_group (args : Namespace) : list string :=
  flag_with_value "--allCategories" (args_category args) ++
  flag_with_value "--coreRun" (args_corerun args) ++
  flag_with_value "--cli" (args_cli args) ++
  (if args_enable_pmc args
   then ["--counters"; "BranchMispredictions+CacheMisses+InstructionRetired"] else []) ++
  flag_with_values "--filter" (args_filter args) ++
  default [] (args_bdn_arguments args).

(** Cutting a text at every space. *)
Fixpoint split_on_space (s : string) : list string :=
  match s with
  | "" => [""]
  | String c rest =>
      if bool_decide (c = " "%char) then "" :: split_on_space rest
      else
        match split_on_space rest with
        | [] => [String c ""]
        | token :: tokens => String c token :: tokens
        end
  end.

(** A text without quote characters and line ends. *)
Fixpoint plain (s : string) : bool :=
  match s with
  | "" => true
  | String c rest => negb (bool_decide (c = dquote)) && negb (csv.is_newline c) && plain rest
  end.

(** ** A concrete runtime, host and environments

    A runtime whose case mapping covers the ASCII letters and whose sets
    yield their elements by increasing slot of a small hash; a POSIX host; an
    environment in which every call succeeds and one in which the restore
    fails. *)

Definition ascii_lower (c : ascii) : ascii :=
  let n := N_of_ascii c in
  if (65 <=? n)%N && (n <=? 90)%N then ascii_of_N (n + 32) else c.

Fixpoint map_string (f : ascii → ascii) (s : string) : string :=
  match s with
  | "" => ""
  | String c rest => String (f c) (map_string f rest)
  end.

Fixpoint char_sum (s : string) : nat :=
  match s with
  | "" => 0
  | String c rest => nat_of_ascii c + char_sum rest
  end.

Definition slot (s : string) : nat := char_sum s mod 8.

Definition slot_le (a b : string) : Prop := (slot a ≤ slot b)%nat.

#[global] Instance slot_le_dec : RelDecision slot_le.
Proof. intros a b. unfold slot_le. apply _. Defined.

Definition slot_order (values : list string) : list string :=
  merge_sort slot_le (remove_dups values).

Definition posix_join (a b : string) : string :=
  if String.prefix "/" b then b
  else if String.eqb a "" then b
  else a +:+ "/" +:+ b.

Definition posix_abspath (p : string) : string :=
  if String.prefix "/" p then p else posix_join "/home/user" p.

Definition posix_isfile (p : string) : bool :=
  bool_decide (p ∈ ["/opt/coreclr/corerun"; "/usr/bin/dotnet"]).

Definition quiet_world : World := λ _ _, None.

Definition failing_restore : World := λ _ e,
  match e with
  | Restore _ _ => Some (CalledProcessError "dotnet restore" 1)
  | _ => None
  end.

(** ** What [parse_args] guarantees about the namespace it returns *)

Record valid_namespace `{Host} (ns : Namespace) : Prop := {
  valid_configuration : args_configuration ns ∈ get_supported_configurations;
  valid_incremental : args_incremental ns ∈ ["yes"; "no"];
  valid_frameworks : ∀ fs, args_frameworks ns = Some fs →
    fs ≠ [] ∧ NoDup fs ∧
    Forall (λ f, f ∈ TargetFrameworkAction.get_supported_target_frameworks) fs;
  valid_category : ∀ c, args_category ns = Some c → c ∈ ["coreclr"; "corefx"];
  valid_filter : ∀ l, args_filter ns = Some l → l ≠ [];
  valid_corerun : ∀ p, args_corerun ns = Some p → isfile p = true;
  valid_cli : ∀ p, args_cli ns = Some p → isfile p = true
}.

(** * Properties *)

(** ** The concrete runtime and host *)

Lemma slot_order_NoDup values : NoDup (slot_order values).
Proof.
  unfold slot_order. rewrite merge_sort_Permutation. apply NoDup_remove_dups.
Qed.

Lemma slot_order_elem values x : x ∈ slot_order values ↔ x ∈ values.
Proof.
  unfold slot_order. rewrite merge_sort_Permutation. apply elem_of_remove_dups.
Qed.

Definition ascii_runtime : PyRuntime :=
  {| casefold := map_string ascii_lower;
     lower := map_string ascii_lower;
     set_to_list := slot_order;
     set_to_list_NoDup := slot_order_NoDup;
     set_to_list_elem := slot_order_elem |}.

Lemma posix_isfile_nonempty p : posix_isfile p = true → p ≠ "".
Proof. intros Hp ->. vm_compute in Hp. discriminate. Qed.

Definition posix_host : Host :=
  {| platform := "linux";
     abspath := posix_abspath;
     isfile := posix_isfile;
     path_join := posix_join;
     repo_root := "/repo";
     isfile_nonempty := posix_isfile_nonempty |}.

(** ** Target frameworks *)

Section frameworks.
Context `{PyRuntime} `{Host}.

Local Notation "'supported'" := TargetFrameworkAction.get_supported_target_frameworks.

Lemma wrong_choices_elem values x :
  x ∈ TargetFrameworkAction.wrong_choices supported values ↔ x ∈ values ∧ x ∉ supported.
Proof.
  induction values as [|v values IH]; simpl.
  - rewrite elem_of_nil. tauto.
  - case_bool_decide; rewrite !elem_of_cons, ?IH; naive_solver.
Qed.

Lemma wrong_choices_nil values :
  TargetFrameworkAction.wrong_choices supported values = [] ↔
  Forall (λ f, f ∈ supported) values.
Proof.
  induction values as [|v values IH]; simpl.
  - split; [constructor | done].
  - case_bool_decide as Hv.
    + rewrite IH. split; [by constructor | by inversion 1].
    + split; [done | by inversion 1].
Qed.

Lemma check_values_ok name values :
  Forall (λ f, f ∈ supported) values → _check_values name supported values = Ok ().
Proof.
  induction 1 as [|v values Hv _ IH]; simpl; [done |].
  unfold _check_value. by rewrite bool_decide_true.
Qed.

(** With every value supported, the action stores the values of the set. *)
Lemma call_valid current v values :
  Forall (λ f, f ∈ supported) (v :: values) →
  TargetFrameworkAction.__call__ current (v :: values) = Ok (Some (set_to_list (v :: values))).
Proof.
  intros Hall. unfold TargetFrameworkAction.__call__.
  by apply wrong_choices_nil in Hall as ->.
Qed.

(** On its own, the action reports all the unsupported values together. *)
Lemma call_invalid current values :
  ¬ Forall (λ f, f ∈ supported) values →
  TargetFrameworkAction.__call__ current values =
    Raise ("Invalid choice(s): " +:+
           join ", " (TargetFrameworkAction.wrong_choices supported values)).
Proof.
  intros Hbad. unfold TargetFrameworkAction.__call__.
  destruct values as [|v values]; [by destruct Hbad |].
  destruct (TargetFrameworkAction.wrong_choices supported (v :: values)) eqn:Hw; [|done].
  by apply wrong_choices_nil in Hw.
Qed.

(** The parser checks each value against [choices] before the action runs:
    the first unsupported value stops it. *)
Lemma check_values_first_invalid name good bad rest :
  Forall (λ f, f ∈ supported) good → bad ∉ supported →
  _check_values name supported (good ++ bad :: rest) =
    Raise (argument_error name
             ("invalid choice: " +:+ repr bad +:+ " (choose from " +:+
              join ", " (repr <$> supported) +:+ ")")).
Proof.
  intros Hgood Hbad. induction Hgood as [|v good Hv _ IH]; simpl.
  - unfold _check_value. by rewrite bool_decide_false.
  - unfold _check_value at 1. by rewrite bool_decide_true.
Qed.

End frameworks.

(** ** Build configurations *)

Section configurations.
Context `{PyRuntime}.

Lemma dotnet_configuration_loop_ok configs configuration canonical :
  dotnet_configuration_loop configs configuration = Ok canonical →
  canonical ∈ configs ∧ casefold canonical = casefold configuration.
Proof.
  induction configs as [|config configs IH]; simpl; [done |].
  case_bool_decide as Hfold.
  - intros [= <-]. split; [apply elem_of_cons; by left | done].
  - intros [Hin Heq]%IH. split; [apply elem_of_cons; by right | done].
Qed.

Lemma dotnet_configuration_loop_raise configs configuration message :
  dotnet_configuration_loop configs configuration = Raise message →
  message = "Unknown configuration: " +:+ configuration +:+ "." ∧
  ∀ config, config ∈ configs → casefold config ≠ casefold configuration.
Proof.
  induction configs as [|config configs IH]; simpl.
  - intros [= <-]. split; [done |]. intros config Hin. by apply elem_of_nil in Hin.
  - case_bool_decide as Hfold; [done |].
    intros [-> Hall]%IH. split; [done |].
    intros config' [-> | Hin]%elem_of_cons; [done | by apply Hall].
Qed.

(** C8: configuration matching is case-insensitive against Release and
    Debug and canonicalizes casing.  An input whose case-folded form is that
    of a supported configuration is accepted, and the value stored in the
    namespace is a configuration of the known set, in its own casing, with
    the same case-folded form; any other input is refused with an error
    that names the input verbatim. *)
Theorem configuration_case_insensitive `{Host} (configuration : string) (ns : Namespace) :
  ((∃ config, config ∈ get_supported_configurations ∧
              casefold config = casefold configuration) →
   ∃ canonical,
     dotnet_configuration configuration = Ok canonical ∧
     canonical ∈ get_supported_configurations ∧
     casefold canonical = casefold configuration ∧
     ∃ ns', take_action ns (opt_configuration configuration) = Ok ns' ∧
            args_configuration ns' = canonical) ∧
  ((∀ config, config ∈ get_supported_configurations →
              casefold config ≠ casefold configuration) →
   dotnet_configuration configuration =
     Raise ("Unknown configuration: " +:+ configuration +:+ ".") ∧
   take_action ns (opt_configuration configuration) =
     Raise (parser_error ("argument -c/--configuration: Unknown configuration: " +:+
                          configuration +:+ "."))).
Proof.
  split.
  - intros (config & Hin & Hfold).
    destruct (dotnet_configuration configuration) as [canonical | message] eqn:Hres.
    + apply dotnet_configuration_loop_ok in Hres as Hok. destruct Hok as [Hc Hf].
      exists canonical. repeat split; try done.
      simpl. rewrite Hres. simpl. unfold _check_value.
      rewrite bool_decide_true by done. by eexists.
    + apply dotnet_configuration_loop_raise in Hres as [_ Hall].
      destruct (Hall config Hin Hfold).
  - intros Hnone.
    destruct (dotnet_configuration configuration) as [canonical | message] eqn:Hres.
    + apply dotnet_configuration_loop_ok in Hres as [Hin Hfold].
      destruct (Hnone canonical Hin Hfold).
    + apply dotnet_configuration_loop_raise in Hres as Hmsg. destruct Hmsg as [-> _].
      split; [done |]. simpl. by rewrite Hres.
Qed.

End configurations.

(** The examples of the specification: "release" and "RELEASE" are both
    stored as "Release", and an unknown name is refused by name. *)
Lemma configuration_examples :
  (∃ canonical,
     @dotnet_configuration ascii_runtime "RELEASE" = Ok canonical ∧
     canonical ∈ get_supported_configurations ∧
     @casefold ascii_runtime canonical = @casefold ascii_runtime "RELEASE" ∧
     ∃ ns', @take_action ascii_runtime posix_host default_namespace
              (opt_configuration "RELEASE") = Ok ns' ∧
            args_configuration ns' = canonical) ∧
  @dotnet_configuration ascii_runtime "release" = Ok "Release" ∧
  @dotnet_configuration ascii_runtime "RELEASE" = Ok "Release" ∧
  @dotnet_configuration ascii_runtime "debug" = Ok "Debug" ∧
  @dotnet_configuration ascii_runtime "Fast" = Raise "Unknown configuration: Fast.".
Proof.
  split; [| by vm_compute].
  apply (proj1 (@configuration_case_insensitive ascii_runtime posix_host
                  "RELEASE" default_namespace)).
  exists "Release". split; [| reflexivity].
  apply elem_of_cons. by left.
Defined.

(** ** The namespace of a successful parse *)

Section parsing.
Context `{PyRuntime} `{Host}.

Local Notation "'supported'" := TargetFrameworkAction.get_supported_target_frameworks.

Lemma check_value_inv name choices value u :
  _check_value name choices value = Ok u → value ∈ choices.
Proof. unfold _check_value. by case_bool_decide. Qed.

Lemma check_values_inv name choices values u :
  _check_values name choices values = Ok u → Forall (λ v, v ∈ choices) values.
Proof.
  induction values as [|v values IH]; simpl; [by constructor |].
  destruct (_check_value name choices v) eqn:Hv; [| done].
  intros Hrest. constructor; [by eapply check_value_inv | by apply IH].
Qed.

Lemma valid_file_path_inv value p : __valid_file_path value = Ok p → isfile p = true.
Proof. unfold __valid_file_path. destruct (isfile (abspath value)) eqn:Hf; naive_solver. Qed.

Lemma default_namespace_valid : valid_namespace default_namespace.
Proof.
  constructor; simpl; try done.
  - apply elem_of_cons. by left.
  - apply elem_of_cons. by left.
Qed.

Lemma stored_frameworks_valid values :
  values ≠ [] → Forall (λ f, f ∈ supported) values →
  set_to_list values ≠ [] ∧ NoDup (set_to_list values) ∧
  Forall (λ f, f ∈ supported) (set_to_list values).
Proof.
  intros Hne Hall. split_and!.
  - destruct values as [|v values]; [done |].
    intros Hnil. assert (v ∈ set_to_list (v :: values)) as Hv.
    { apply set_to_list_elem, elem_of_cons. by left. }
    rewrite Hnil in Hv. by apply elem_of_nil in Hv.
  - apply set_to_list_NoDup.
  - apply Forall_forall. intros f Hf.
    apply (proj1 (set_to_list_elem _ _)) in Hf.
    by eapply Forall_forall in Hall.
Qed.

Lemma take_action_valid ns o ns' :
  valid_namespace ns → take_action ns o = Ok ns' → valid_namespace ns'.
Proof.
  intros [Hc Hi Hf Hcat Hfil Hcr Hcl] Htake.
  destruct o; simpl in Htake; unfold _get_value in Htake;
    repeat case_match; simplify_eq; constructor; simpl; try done.
  - by eapply check_value_inv.
  - intros fs ->.
    match goal with
    | Hchk : _check_values _ _ ?vs = Ok _,
      Hcall : TargetFrameworkAction.__call__ _ ?vs = Ok _ |- _ =>
        apply check_values_inv in Hchk; rewrite (call_valid _ _ _ Hchk) in Hcall;
        injection Hcall as <-; by apply stored_frameworks_valid
    end.
  - by eapply check_value_inv.
  - intros c [= <-]. by eapply check_value_inv.
  - by intros l0 [= <-].
  - intros p [= <-]. by eapply valid_file_path_inv.
  - intros p [= <-]. by eapply valid_file_path_inv.
Qed.

Lemma consume_optionals_valid argv ns ns' :
  valid_namespace ns → consume_optionals ns argv = Ok ns' → valid_namespace ns'.
Proof.
  revert ns. induction argv as [|o argv IH]; simpl; intros ns Hvalid.
  - by intros [= <-].
  - destruct (take_action ns o) as [ns1 |] eqn:Htake; [| done].
    apply IH. by eapply take_action_valid.
Qed.

Lemma take_action_keeps_frameworks ns o ns' :
  take_action ns o = Ok ns' → is_Some (args_frameworks ns) →
  is_Some (args_frameworks ns').
Proof.
  intros Htake Hsome.
  destruct o; simpl in Htake; repeat case_match; simplify_eq; simpl; try done.
  match goal with
  | Hcall : TargetFrameworkAction.__call__ _ _ = Ok _ |- _ =>
      unfold TargetFrameworkAction.__call__ in Hcall;
      repeat case_match; by simplify_eq
  end.
Qed.

Lemma take_action_sets_frameworks ns values ns' :
  take_action ns (opt_frameworks values) = Ok ns' → is_Some (args_frameworks ns').
Proof.
  simpl. intros Htake. repeat case_match; simplify_eq; simpl.
  match goal with
  | Hcall : TargetFrameworkAction.__call__ _ _ = Ok _ |- _ =>
      unfold TargetFrameworkAction.__call__ in Hcall;
      repeat case_match; by simplify_eq
  end.
Qed.

Lemma consume_optionals_frameworks argv ns ns' :
  consume_optionals ns argv = Ok ns' →
  existsb is_opt_frameworks argv = true ∨ is_Some (args_frameworks ns) →
  is_Some (args_frameworks ns').
Proof.
  revert ns. induction argv as [|o argv IH]; simpl; intros ns.
  - intros [= <-] [? | ?]; done.
  - destruct (take_action ns o) as [ns1 |] eqn:Htake; [| done].
    intros Hrest Hcase. apply (IH _ Hrest).
    destruct Hcase as [Hex | Hsome].
    + apply orb_true_iff in Hex as [Ho | Hex]; [| by left].
      right. destruct o; try done. by eapply take_action_sets_frameworks.
    + right. by eapply take_action_keeps_frameworks.
Qed.

(** A namespace that [parse_args] returns is valid and holds the targets. *)
Lemma parse_args_valid argv args :
  parse_args argv = Ok args →
  valid_namespace args ∧
  ∃ fs, args_frameworks args = Some fs ∧ fs ≠ [] ∧ NoDup fs ∧
        Forall (λ f, f ∈ supported) fs.
Proof.
  unfold parse_args.
  destruct (consume_optionals default_namespace argv) as [ns |] eqn:Hcons; [| done].
  destruct (existsb is_opt_frameworks argv) eqn:Hex; simpl; [| done].
  destruct (unrecognized argv); [| done].
  intros [= <-].
  pose proof (consume_optionals_valid _ _ _ default_namespace_valid Hcons) as Hvalid.
  split; [done |].
  destruct (consume_optionals_frameworks _ _ _ Hcons (or_introl Hex)) as [fs Hfs].
  exists fs. split; [done |]. by apply (valid_frameworks _ Hvalid).
Qed.

(** On a valid namespace the list the loop builds is the separator followed
    by the groups in the order of the specification. *)
Lemma run_args_valid args : valid_namespace args → run_args args = "--" :: run_group args.
Proof.
  intros [_ _ _ Hcat Hfil Hcr Hcl]. unfold run_args, run_group.
  assert (∀ o, (∀ c, o = Some c → c ≠ "") →
               ∀ flag l, (if truthy_str o then l ++ [flag; default "" o] else l)
                         = l ++ flag_with_value flag o) as Hstr.
  { intros [c|] Hne flag l; simpl; [| by rewrite app_nil_r].
    destruct (String.eqb_spec c ""); [by destruct (Hne c eq_refl) | done]. }
  rewrite (Hstr (args_category args)), (Hstr (args_corerun args)), (Hstr (args_cli args)).
  - assert ((if truthy_list (args_filter args)
             then ["--filter"] ++ default [] (args_filter args) else [])
            = flag_with_values "--filter" (args_filter args)) as Hfilter.
    { destruct (args_filter args) as [[|x l]|] eqn:Hl; simpl; try done.
      by destruct (Hfil [] eq_refl). }
    assert ((if truthy_list (args_bdn_arguments args)
             then default [] (args_bdn_arguments args) else [])
            = default [] (args_bdn_arguments args)) as Hbdn.
    { by destruct (args_bdn_arguments args) as [[|x l]|]. }
    rewrite <- Hfilter, <- Hbdn.
    destruct (args_enable_pmc args), (truthy_list (args_filter args)),
      (truthy_list (args_bdn_arguments args));
      simpl; rewrite <- ?app_assoc, ?app_nil_r; simpl; done.
  - intros p Hp%Hcl. by apply isfile_nonempty.
  - intros p Hp%Hcr. by apply isfile_nonempty.
  - intros c Hc%Hcat. intros ->.
    apply elem_of_cons in Hc as [? | Hc]; [done |].
    apply elem_of_cons in Hc as [? | Hc]; [done |]. by apply elem_of_nil in Hc.
Qed.

(** Whatever the namespace, the list starts with the separator. *)
Lemma run_args_head args : ∃ tail, run_args args = "--" :: tail.
Proof.
  unfold run_args.
  destruct (truthy_str (args_category args)), (truthy_str (args_corerun args)),
    (truthy_str (args_cli args)), (args_enable_pmc args),
    (truthy_list (args_filter args)), (truthy_list (args_bdn_arguments args));
    simpl; by eexists.
Qed.

End parsing.

(** ** Executions *)

Section executions.
Context `{World}.

Lemma bind_eq {A B} (m : M A) (k : A → M B) st :
  (m ≫= k) st =
    match m st with
    | (Ok a, st') => k a st'
    | (Raise e, st') => (Raise e, st')
    end.
Proof. reflexivity. Qed.

Lemma perform_cons a s st :
  perform (a :: s) st =
    match act a st with
    | (Ok _, st') => perform s st'
    | (Raise e, st') => (Raise e, st')
    end.
Proof. reflexivity. Qed.

Lemma perform_app s1 s2 st :
  perform (s1 ++ s2) st =
    match perform s1 st with
    | (Ok _, st') => perform s2 st'
    | (Raise e, st') => (Raise e, st')
    end.
Proof.
  revert st. induction s1 as [|a s1 IH]; intros st; [done |].
  simpl app. rewrite !perform_cons.
  destruct (act a st) as [[[] | e] st']; [apply IH | done].
Qed.

Lemma act_trace a st : trace (act a st).2 = trace st ++ [event_of a].
Proof.
  destruct a as [e | e | path]; simpl; [done | |].
  - unfold call. by destruct (respond (trace st) e).
  - unfold remove_directory. case_decide; [| done].
    by destruct (respond (trace st) (RemoveDirectory path)).
Qed.

Lemma act_call e st :
  act (Call e) st =
    (match respond (trace st) e with None => Ok () | Some x => Raise x end, record e st).
Proof. simpl. unfold call. by destruct (respond (trace st) e). Qed.

(** The events of an execution are those of a prefix of the script: all of
    it when nothing is raised, and a non-empty part of it otherwise. *)
Lemma perform_trace s st :
  ∃ finished rest,
    s = finished ++ rest ∧
    trace (perform s st).2 = trace st ++ (event_of <$> finished) ∧
    match (perform s st).1 with
    | Ok _ => rest = []
    | Raise _ => finished ≠ []
    end.
Proof.
  revert st. induction s as [|a s IH]; intros st.
  - exists [], []. simpl. by rewrite app_nil_r.
  - rewrite perform_cons. pose proof (act_trace a st) as Ha.
    destruct (act a st) as [[[] | e] st']; simpl in *.
    + destruct (IH st') as (finished & rest & -> & Htr & Hres).
      exists (a :: finished), rest. split; [done |]. split.
      * rewrite Htr, Ha. by rewrite <- app_assoc.
      * by destruct (perform (finished ++ rest) st').1.
    + exists [a], s. by rewrite Ha.
Qed.

Lemma perform_trace_ok s st :
  (perform s st).1 = Ok () → trace (perform s st).2 = trace st ++ (event_of <$> s).
Proof.
  intros Hok. destruct (perform_trace s st) as (finished & rest & -> & Htr & Hres).
  rewrite Hok in Hres. subst rest. by rewrite app_nil_r in *.
Qed.

Lemma act_outcome a st :
  well_formed a →
  (act a st).1 =
    match fails (dirs st) (trace st) (event_of a) with
    | None => Ok ()
    | Some x => Raise x
    end.
Proof.
  destruct a as [e | e | path]; simpl.
  - intros [Hcall Hrem]. destruct e; simpl in *; done.
  - intros Hcall. unfold call.
    destruct e; simpl in *; try done; by destruct (respond _ _).
  - intros _. unfold remove_directory. case_decide; [| done].
    by destruct (respond _ _).
Qed.

Lemma act_dirs a st :
  well_formed a →
  (act a st).1 = Ok () → dirs (act a st).2 = dirs st ∖ removed [event_of a].
Proof.
  destruct a as [e | e | path]; simpl; intros Hwf.
  - intros _. unfold removed. destruct Hwf. destruct e; simpl in *; try done; set_solver.
  - unfold call. destruct (respond _ _); [done |]. intros _.
    unfold removed. destruct e; simpl in *; try done; set_solver.
  - unfold remove_directory, removed. simpl. case_decide.
    + destruct (respond _ _); [done |]. intros _. simpl. set_solver.
    + intros _. simpl. set_solver.
Qed.

Lemma removed_cons e t d : d ∖ removed (e :: t) = d ∖ removed [e] ∖ removed t.
Proof. unfold removed. destruct e; simpl; set_solver. Qed.

(** Fail-stop: an effect that raises is the last event of the execution,
    and its exception is the outcome. *)
Lemma perform_fail_stop s st pre e post x :
  Forall well_formed s →
  trace (perform s st).2 = trace st ++ pre ++ e :: post →
  fails (dirs st ∖ removed pre) (trace st ++ pre) e = Some x →
  post = [] ∧ (perform s st).1 = Raise x.
Proof.
  intros Hwf. revert st pre.
  induction Hwf as [|a s Ha _ IH]; intros st pre Htr Hfails.
  - simpl in Htr. rewrite <- (app_nil_r (trace st)) in Htr at 1.
    apply app_inv_head in Htr. by destruct pre.
  - rewrite perform_cons in *.
    pose proof (act_trace a st) as Hact.
    pose proof (act_outcome a st Ha) as Hout.
    pose proof (act_dirs a st Ha) as Hdirs.
    destruct (act a st) as [[[] | y] st'] eqn:Hrun; simpl in *.
    + destruct (perform_trace s st') as (fin & rest & _ & Htr' & _).
      pose proof Htr as Htr0.
      rewrite Htr', Hact, <- app_assoc in Htr0.
      apply app_inv_head in Htr0.
      destruct pre as [|e0 pre]; simpl in Htr0; injection Htr0 as He0 _.
      * rewrite app_nil_r in Hfails.
        assert (dirs st ∖ removed [] = dirs st) as Hd by (unfold removed; set_solver).
        rewrite Hd, <- He0 in Hfails. by rewrite Hfails in Hout.
      * apply (IH st' pre).
        -- rewrite Htr, Hact, <- app_assoc. simpl. by rewrite He0.
        -- rewrite Hdirs by done. rewrite Hact, <- app_assoc. simpl.
           rewrite He0, <- removed_cons. done.
    + rewrite Hact in Htr. apply app_inv_head in Htr.
      destruct pre as [|e0 pre]; simpl in Htr.
      * injection Htr as He Hpost. split; [done |].
        rewrite app_nil_r in Hfails.
        assert (dirs st ∖ removed [] = dirs st) as Hd by (unfold removed; set_solver).
        rewrite Hd, <- He in Hfails. rewrite Hfails in Hout. by injection Hout as ->.
      * injection Htr as _ Hnil. by destruct pre.
Qed.

(** *** The stages are scripts *)

Definition is_script (m : M unit) (s : list action) : Prop :=
  ∀ st, m st = perform s st.

Lemma is_script_ret : is_script (mret ()) [].
Proof. done. Qed.

Lemma is_script_act a : is_script (act a) [a].
Proof. intros st. rewrite perform_cons. by destruct (act a st) as [[[] | e] st']. Qed.

Lemma is_script_emit e : is_script (emit e) [Emit e].
Proof. apply (is_script_act (Emit e)). Qed.

Lemma is_script_call e : is_script (call e) [Call e].
Proof. apply (is_script_act (Call e)). Qed.

Lemma is_script_bind m k s1 s2 :
  is_script m s1 → is_script k s2 → is_script (m ;; k) (s1 ++ s2).
Proof.
  intros Hm Hk st. rewrite bind_eq, perform_app, Hm.
  destruct (perform s1 st) as [[[] | e] st']; [apply Hk | done].
Qed.

Lemma is_script_header message :
  is_script (__log_script_header message) (header_script message).
Proof. done. Qed.

Lemma is_script_for_each {A} (body : A → M unit) (script : A → list action) l :
  (∀ x, is_script (body x) (script x)) →
  is_script (for_each l body) (l ≫= script).
Proof.
  intros Hbody. induction l as [|x l IH]; [done |].
  apply (is_script_bind _ _ _ _ (Hbody x) IH).
Qed.

Lemma is_script_build `{Host} configuration frameworks incremental verbose :
  is_script (build configuration (Some frameworks) incremental verbose)
            (build_script configuration frameworks incremental verbose).
Proof.
  unfold build, build_script, clean_script.
  apply is_script_bind.
  { destruct (String.eqb incremental "no"); [| apply is_script_ret].
    apply is_script_bind; [apply is_script_header |].
    assert (Remove <$> binary_folders = binary_folders ≫= λ p, [Remove p]) as -> by done.
    apply is_script_for_each. intros p. apply (is_script_act (Remove p)). }
  apply is_script_bind; [apply is_script_header |].
  apply is_script_bind; [apply is_script_call |].
  apply is_script_bind; [apply is_script_header | apply is_script_call].
Qed.

Lemma is_script_run configuration framework verbose args :
  is_script (run configuration framework verbose args)
            (run_script configuration framework verbose args).
Proof. apply is_script_bind; [apply is_script_header | apply is_script_call]. Qed.

Lemma is_script_runs args frameworks :
  is_script
    (for_each frameworks
       (λ framework, run (args_configuration args) framework (args_verbose args)
                         (run_args args)))
    (runs_script args frameworks).
Proof. apply is_script_for_each. intros f. apply is_script_run. Qed.

End executions.

(** ** The entry point *)

(** The exception and the terminal output of a parse that stops early. *)
Definition abort_exn (ab : parse_abort) : exn :=
  match ab with
  | parser_error _ => SystemExit 2
  | parser_help => SystemExit 0
  | type_exception cls message => Exception cls message
  end.

Definition abort_events (ab : parse_abort) : list event :=
  match ab with
  | parser_error message => [PrintUsageError message]
  | parser_help => [PrintHelp]
  | type_exception _ _ => []
  end.

(** What [__main] returns when a handler has taken [ex]. *)
Definition handler_result (ex : exn) : result exn Z :=
  match ex with
  | KeyboardInterrupt => Raise KeyboardInterrupt
  | _ => Ok 1%Z
  end.

Definition extend (t : list event) (st : State) : State :=
  {| trace := trace st ++ t; dirs := dirs st |}.

(** The whole of a run whose arguments parse. *)
Definition full_script `{Host} (args : Namespace) (frameworks : list string) : list action :=
  Call ValidateSupportedRuntime :: main_script args frameworks.

Section entry_point.
Context `{PyRuntime} `{Host} `{World}.

Definition script_then (m : M Z) (s : list action) (z : Z) : Prop :=
  ∀ st, m st =
    match perform s st with
    | (Ok _, st') => (Ok z, st')
    | (Raise e, st') => (Raise e, st')
    end.

Lemma script_then_ret z : script_then (mret z) [] z.
Proof. done. Qed.

Lemma script_then_bind m k s1 s2 z :
  is_script m s1 → script_then k s2 z → script_then (m ;; k) (s1 ++ s2) z.
Proof.
  intros Hm Hk st. rewrite bind_eq, perform_app, Hm.
  destruct (perform s1 st) as [[[] | e] st']; [apply Hk | done].
Qed.

Lemma script_then_ret_bind {A} (a : A) (k : A → M Z) s z :
  script_then (k a) s z → script_then (mret a ≫= k) s z.
Proof. done. Qed.

Lemma main_handler_eq ex st :
  main_handler ex st = (handler_result ex, extend (handler_log ex) st).
Proof.
  destruct ex, st; try done.
  - unfold main_handler, extend. simpl. by rewrite app_nil_r.
  - unfold main_handler, extend, mbind, M_bind, emit, record. simpl.
    by rewrite <- app_assoc.
  - unfold main_handler, extend, raise. simpl. by rewrite app_nil_r.
Qed.

Lemma main_body_parsed argv args fs :
  parse_args argv = Ok args → args_frameworks args = Some fs →
  script_then (main_body argv) (full_script args fs) 0.
Proof.
  intros Hparse Hfs. unfold main_body, full_script.
  apply (script_then_bind _ _ [_] _ _ (is_script_call _)).
  unfold __process_arguments. rewrite Hparse. apply script_then_ret_bind.
  cbv zeta. rewrite Hfs. unfold main_script.
  apply (script_then_bind _ _ [_] _ _ (is_script_call _)).
  apply (script_then_bind _ _ [_] _ _ (is_script_call _)).
  apply (script_then_bind _ _ _ _ _ (is_script_build _ _ _ _)).
  rewrite <- (app_nil_r (runs_script args fs)).
  apply (script_then_bind _ _ _ _ _ (is_script_runs _ _)), script_then_ret.
Qed.

Lemma main_body_aborted argv ab st :
  parse_args argv = Raise ab →
  main_body argv st =
    match respond (trace st) ValidateSupportedRuntime with
    | Some x => (Raise x, record ValidateSupportedRuntime st)
    | None =>
        (Raise (abort_exn ab),
         extend (abort_events ab) (record ValidateSupportedRuntime st))
    end.
Proof.
  intros Hparse. unfold main_body. rewrite bind_eq. unfold call at 1.
  destruct (respond (trace st) ValidateSupportedRuntime); [done |].
  rewrite bind_eq. unfold __process_arguments. rewrite Hparse.
  destruct ab, st; unfold extend, record; simpl; by rewrite ?app_nil_r.
Qed.

(** A run whose arguments parse: the script, then the handler if it raised. *)
Lemma main_parsed argv args fs st :
  parse_args argv = Ok args → args_frameworks args = Some fs →
  __main argv st =
    match perform (full_script args fs) st with
    | (Ok _, st') => (Ok 0%Z, st')
    | (Raise ex, st') => (handler_result ex, extend (handler_log ex) st')
    end.
Proof.
  intros Hparse Hfs. unfold __main, try_except.
  rewrite (main_body_parsed _ _ _ Hparse Hfs st).
  destruct (perform (full_script args fs) st) as [[[] | ex] st']; [done |].
  apply main_handler_eq.
Qed.

(** A run whose arguments do not parse. *)
Lemma main_aborted argv ab st :
  parse_args argv = Raise ab →
  __main argv st =
    match respond (trace st) ValidateSupportedRuntime with
    | Some x =>
        (handler_result x, extend (handler_log x) (record ValidateSupportedRuntime st))
    | None =>
        (handler_result (abort_exn ab),
         extend (handler_log (abort_exn ab))
           (extend (abort_events ab) (record ValidateSupportedRuntime st)))
    end.
Proof.
  intros Hparse. unfold __main, try_except.
  rewrite (main_body_aborted _ _ _ Hparse).
  destruct (respond (trace st) ValidateSupportedRuntime); apply main_handler_eq.
Qed.

Lemma handler_log_errors ex : Forall (λ e, is_log_error e = true) (handler_log ex).
Proof. destruct ex; simpl; repeat constructor. Qed.

Lemma full_script_well_formed args fs : Forall well_formed (full_script args fs).
Proof.
  assert (∀ message, Forall well_formed (header_script message)) as Hheader.
  { intros message. repeat constructor; done. }
  unfold full_script, main_script, build_script, clean_script, runs_script.
  apply Forall_cons. split; [done |].
  repeat apply Forall_app_2; try apply Hheader; try (repeat constructor; done).
  - destruct (String.eqb _ _); [| constructor].
    apply Forall_app_2; [apply Hheader |].
    apply Forall_fmap, Forall_true. done.
  - induction fs as [|f fs IH]; [constructor |].
    simpl. repeat (apply Forall_cons; split; [done |]). apply IH.
Qed.

End entry_point.

(** ** The events of a run *)

Section runs.
Context `{PyRuntime} `{Host} `{World}.

(** The trace of a run whose arguments parse: the events of the part of
    the script that was reached, then the log lines of the handler. *)
Lemma main_trace_parsed argv args fs d :
  parse_args argv = Ok args → args_frameworks args = Some fs →
  ∃ finished rest tail,
    full_script args fs = finished ++ rest ∧
    trace (__main argv (initial d)).2 = (event_of <$> finished) ++ tail ∧
    Forall (λ e, is_log_error e = true) tail ∧
    ((__main argv (initial d)).1 = Ok 0%Z → rest = [] ∧ tail = []).
Proof.
  intros Hparse Hfs. rewrite (main_parsed _ _ _ _ Hparse Hfs).
  destruct (perform_trace (full_script args fs) (initial d))
    as (finished & rest & Hsplit & Htr & Hres).
  exists finished, rest.
  destruct (perform (full_script args fs) (initial d)) as [[[] | ex] st']; simpl in *.
  - exists []. rewrite app_nil_r. by repeat split.
  - exists (handler_log ex). rewrite Htr. repeat split; try done.
    + apply handler_log_errors.
    + by destruct ex.
    + by destruct ex.
Qed.

(** The trace of a run whose arguments do not parse holds no stage. *)
Lemma main_trace_aborted argv ab d :
  parse_args argv = Raise ab →
  ∃ tail, trace (__main argv (initial d)).2 = ValidateSupportedRuntime :: tail ∧
          Forall (λ e, is_stage e = false ∧ is_remove e = false ∧ is_call e = false) tail ∧
          (__main argv (initial d)).1 ≠ Ok 0%Z.
Proof.
  intros Hparse. rewrite (main_aborted _ _ _ Hparse). simpl.
  destruct (respond [] ValidateSupportedRuntime) as [x |]; simpl.
  - exists (handler_log x). split; [done |]. split; [| by destruct x].
    destruct x; repeat constructor.
  - exists (abort_events ab ++ handler_log (abort_exn ab)).
    split; [done |]. split; [| by destruct ab].
    destruct ab; repeat constructor.
Qed.

Lemma script_run_events args fs c f v a :
  Run c f v a ∈ event_of <$> full_script args fs →
  c = args_configuration args ∧ f ∈ fs ∧ v = args_verbose args ∧ a = run_args args.
Proof.
  unfold full_script, main_script, build_script, clean_script, runs_script, header_script.
  rewrite fmap_cons, elem_of_cons, !fmap_app, !elem_of_app.
  intros [? | [Hin | [Hin | Hin]]]; [done | | |].
  - simpl in Hin. rewrite !elem_of_cons, elem_of_nil in Hin. naive_solver.
  - destruct (String.eqb _ _); simpl in Hin;
      rewrite ?fmap_app, ?elem_of_app, !elem_of_cons, ?elem_of_nil in Hin; naive_solver.
  - induction fs as [|f' fs IH]; simpl in Hin; [by apply elem_of_nil in Hin |].
    rewrite !elem_of_cons in Hin. rewrite elem_of_cons.
    destruct Hin as [? | [? | [? | [Hrun | Hin]]]]; try done.
    + injection Hrun as -> -> -> ->. naive_solver.
    + naive_solver.
Qed.

(** Every Run invocation of a run comes from the loop over the stored
    targets, with the argument list built from the parsed namespace. *)
Lemma main_run_events argv d c f v a :
  Run c f v a ∈ trace (__main argv (initial d)).2 →
  ∃ args fs, parse_args argv = Ok args ∧ args_frameworks args = Some fs ∧
             c = args_configuration args ∧ f ∈ fs ∧ v = args_verbose args ∧
             a = run_args args.
Proof.
  intros Hin. destruct (parse_args argv) as [args | ab] eqn:Hparse.
  - destruct (parse_args_valid _ _ Hparse) as (_ & fs & Hfs & _).
    exists args, fs. split; [done |]. split; [done |].
    destruct (main_trace_parsed _ _ _ d Hparse Hfs)
      as (finished & rest & tail & Hsplit & Htr & Htail & _).
    rewrite Htr in Hin. apply elem_of_app in Hin as [Hin | Hin].
    + apply script_run_events. rewrite Hsplit, fmap_app. apply elem_of_app. by left.
    + rewrite Forall_forall in Htail. by apply Htail in Hin.
  - destruct (main_trace_aborted _ _ d Hparse) as (tail & Htr & Htail & _).
    rewrite Htr in Hin. apply elem_of_cons in Hin as [? | Hin]; [done |].
    rewrite Forall_forall in Htail. by apply Htail in Hin as (? & _).
Qed.

(** C1: for every validated set of options, the argument group of each Run
    invocation is assembled in one fixed order: the category flag and its
    value if set, the alternate-runtime flag and its path if set, the
    alternate-tool flag and its path if set, the hardware-counter flag with
    its fixed payload if set, one name-filter flag followed by all the
    patterns if set, and the pass-through tokens last, unchanged; the whole
    group follows the separator that opens the list. *)
Theorem run_arguments_fixed_order (argv : list cli_option) (args : Namespace) :
  parse_args argv = Ok args →
  run_args args = "--" :: run_group args ∧
  ∀ d c f v a, Run c f v a ∈ trace (__main argv (initial d)).2 →
               a = "--" :: run_group args.
Proof.
  intros Hparse. destruct (parse_args_valid _ _ Hparse) as (Hvalid & _).
  split; [by apply run_args_valid |].
  intros d c f v a Hin.
  destruct (main_run_events _ _ _ _ _ _ Hin) as (args' & fs & Hparse' & _ & _ & _ & _ & ->).
  rewrite Hparse in Hparse'. injection Hparse' as <-. by apply run_args_valid.
Qed.

(** C10: the list handed to every Run invocation begins with the separator,
    ahead of the category, runtime, tool, counter, filter and pass-through
    tokens, and the separator is there even when no optional flag is set. *)
Theorem run_arguments_start_with_separator (argv : list cli_option) (d : gset string) :
  Forall (λ e, match e with
               | Run _ _ _ a => ∃ tail, a = "--" :: tail
               | _ => True
               end) (trace (__main argv (initial d)).2) ∧
  (∀ args, ∃ tail, run_args args = "--" :: tail) ∧
  (∀ args, args_category args = None → args_corerun args = None →
           args_cli args = None → args_enable_pmc args = false →
           args_filter args = None → args_bdn_arguments args = None →
           run_args args = ["--"]).
Proof.
  split; [| split].
  - apply Forall_forall. intros e He. destruct e; try done.
    destruct (main_run_events _ _ _ _ _ _ He) as (args' & _ & _ & _ & _ & _ & _ & ->).
    apply run_args_head.
  - apply run_args_head.
  - intros args Hcat Hcr Hcli Hpmc Hfil Hbdn. unfold run_args.
    by rewrite Hcat, Hcr, Hcli, Hpmc, Hfil, Hbdn.
Qed.

End runs.

(** ** The order of the stages *)

(** A list cut at an element with a property that no other element has can
    be cut there in one way only. *)
Lemma split_unique {A} (P : A → bool) (a : list A) x b pre e post :
  a ++ x :: b = pre ++ e :: post →
  P e = true →
  Forall (λ y, P y = false) a → Forall (λ y, P y = false) b →
  a = pre ∧ x = e ∧ b = post.
Proof.
  intros Heq He Ha Hb. revert pre Heq.
  induction Ha as [|y a Hy _ IH]; intros [|z pre] Heq; simpl in Heq.
  - by injection Heq as -> ->.
  - injection Heq as -> ->. rewrite Forall_app, Forall_cons in Hb.
    destruct Hb as (_ & He' & _). congruence.
  - injection Heq as -> _. congruence.
  - injection Heq as -> Heq. by destruct (IH _ Heq) as (-> & -> & ->).
Qed.

Lemma filter_none {A} (f : A → bool) (l : list A) :
  Forall (λ x, f x = false) l → List.filter f l = [].
Proof. induction 1 as [|x l Hx _ IH]; [done |]. simpl. by rewrite Hx. Qed.

Lemma run_targets_app l1 l2 : run_targets (l1 ++ l2) = run_targets l1 ++ run_targets l2.
Proof. apply omap_app. Qed.

Lemma run_targets_none l : Forall (λ e, is_run e = false) l → run_targets l = [].
Proof. induction 1 as [|e l He _ IH]; [done |]. by destruct e. Qed.

Section stage_order.
Context `{Host}.

Lemma header_events message :
  Forall (λ e, is_restore e = false ∧ is_build e = false ∧ is_run e = false ∧
               is_remove e = false) (event_of <$> header_script message).
Proof. repeat constructor. Qed.

Lemma clean_events incremental :
  Forall (λ e, is_restore e = false ∧ is_build e = false ∧ is_run e = false)
         (event_of <$> clean_script incremental) ∧
  List.filter is_remove (event_of <$> clean_script incremental) =
    (if String.eqb incremental "no" then RemoveDirectory <$> binary_folders else []).
Proof.
  unfold clean_script. destruct (String.eqb incremental "no"); [| by split].
  split; [repeat constructor | done].
Qed.

(** The events of the build script around its one Restore. *)
Lemma build_script_events configuration fs incremental verbose :
  ∃ before after,
    event_of <$> build_script configuration fs incremental verbose =
      before ++ Restore packages verbose :: after ∧
    Forall (λ e, is_restore e = false ∧ is_build e = false ∧ is_run e = false) before ∧
    Forall (λ e, is_restore e = false ∧ is_remove e = false ∧ is_run e = false) after ∧
    List.filter is_remove before =
      (if String.eqb incremental "no" then RemoveDirectory <$> binary_folders else []) ∧
    List.filter is_build after = [Build configuration fs verbose].
Proof.
  destruct (clean_events incremental) as [Hclean Hfilter].
  eexists (event_of <$> (clean_script incremental ++
                         header_script "Restoring .NET micro benchmarks")), _.
  split; [unfold build_script; rewrite !fmap_app, <- !app_assoc; reflexivity |].
  split; [| split; [| split]].
  - rewrite fmap_app. apply Forall_app_2; [done |]. repeat constructor.
  - repeat constructor.
  - rewrite fmap_app, List.filter_app, Hfilter. simpl. by rewrite app_nil_r.
  - done.
Qed.

Lemma runs_events args fs :
  Forall (λ e, is_restore e = false ∧ is_remove e = false ∧ is_build e = false)
         (event_of <$> runs_script args fs) ∧
  List.filter is_run (event_of <$> runs_script args fs) =
    (λ f, Run (args_configuration args) f (args_verbose args) (run_args args)) <$> fs ∧
  run_targets (event_of <$> runs_script args fs) = fs.
Proof.
  induction fs as [|f fs (IH1 & IH2 & IH3)]; [by repeat split |].
  change (runs_script args (f :: fs))
    with (run_script (args_configuration args) f (args_verbose args) (run_args args)
          ++ runs_script args fs).
  rewrite fmap_app. split; [| split].
  - apply Forall_app_2; [repeat constructor | done].
  - by rewrite List.filter_app, IH2.
  - by rewrite run_targets_app, IH3.
Qed.

(** The events of the whole script around its one Restore. *)
Lemma full_script_events args fs :
  ∃ before after,
    event_of <$> full_script args fs =
      before ++ Restore packages (args_verbose args) :: after ∧
    Forall (λ e, is_restore e = false ∧ is_build e = false ∧ is_run e = false) before ∧
    Forall (λ e, is_restore e = false ∧ is_remove e = false) after ∧
    List.filter is_build after =
      [Build (args_configuration args) fs (args_verbose args)] ∧
    List.filter is_run after =
      (λ f, Run (args_configuration args) f (args_verbose args) (run_args args)) <$> fs ∧
    run_targets after = fs.
Proof.
  destruct (build_script_events (args_configuration args) fs (args_incremental args)
              (args_verbose args))
    as (before & after & Hbuild & Hbefore & Hafter & _ & Hfb).
  destruct (runs_events args fs) as (Hruns & Hfr & Htargets).
  exists ([ValidateSupportedRuntime; SetupLoggers (args_verbose args);
           DotnetInfo (args_verbose args)] ++ before),
         (after ++ (event_of <$> runs_script args fs)).
  split; [| split; [| split; [| split; [| split]]]].
  - unfold full_script, main_script. rewrite fmap_cons, !fmap_app, Hbuild.
    simpl. by rewrite <- !app_assoc.
  - apply Forall_app_2; [repeat constructor | done].
  - apply Forall_app_2.
    + eapply Forall_impl; [apply Hafter |]. naive_solver.
    + eapply Forall_impl; [apply Hruns |]. naive_solver.
  - rewrite List.filter_app, Hfb, (filter_none is_build (event_of <$> _)); [done |].
    eapply Forall_impl; [apply Hruns |]. naive_solver.
  - rewrite List.filter_app, Hfr, (filter_none is_run after); [done |].
    eapply Forall_impl; [apply Hafter |]. naive_solver.
  - rewrite run_targets_app, Htargets, (run_targets_none after); [done |].
    eapply Forall_impl; [apply Hafter |]. naive_solver.
Qed.

End stage_order.

Section sequencing.
Context `{PyRuntime} `{Host} `{World}.

Lemma fails_inv d history e x :
  fails d history e = Some x →
  (is_call e = true ∨ is_remove e = true) ∧ is_log_error e = false.
Proof. destruct e; simpl; naive_solver. Qed.

(** C5: when a stage does not succeed, every later stage is skipped: the
    effect that raises is followed by nothing but the error lines of the
    handler, and the run does not return 0.  In particular, when the
    restore raises, neither the build nor any run is ever invoked. *)
Theorem failed_stage_aborts_the_rest
    (argv : list cli_option) (d : gset string) (pre : list event) (e : event)
    (post : list event) (x : exn) :
  trace (__main argv (initial d)).2 = pre ++ e :: post →
  fails (d ∖ removed pre) pre e = Some x →
  Forall (λ e', is_log_error e' = true) post ∧
  (__main argv (initial d)).1 = handler_result x ∧
  (__main argv (initial d)).1 ≠ Ok 0%Z ∧
  (is_restore e = true →
   Forall (λ e', is_build e' = false ∧ is_run e' = false) (pre ++ post)).
Proof.
  intros Htr Hfails.
  destruct (fails_inv _ _ _ _ Hfails) as [Hkind Hnolog].
  assert (∀ l, Forall (λ e', is_log_error e' = true) l → e ∉ l) as Hnotin.
  { intros l Hl Hin. rewrite Forall_forall in Hl. apply Hl in Hin. congruence. }
  assert (handler_result x ≠ Ok 0%Z) as Hnonzero by by destruct x.
  destruct (parse_args argv) as [args | ab] eqn:Hparse.
  - destruct (parse_args_valid _ _ Hparse) as (_ & fs & Hfs & _).
    rewrite (main_parsed _ _ _ _ Hparse Hfs) in *.
    pose proof (perform_fail_stop (full_script args fs) (initial d)) as Hstop.
    destruct (perform_trace (full_script args fs) (initial d))
      as (finished & rest & Hsplit & Htrace & _).
    destruct (perform (full_script args fs) (initial d)) as [[[] | ex] st'];
      simpl in *.
    + destruct (Hstop pre e post x (full_script_well_formed _ _) Htr Hfails) as [_ ?].
      done.
    + apply app_eq_inv in Htr as [(k & Hst & Hk) | (k & _ & Hk)].
      * destruct k as [|e' k]; simpl in Hk.
        { destruct (Hnotin (handler_log ex) (handler_log_errors ex)).
          rewrite <- Hk. apply elem_of_cons. by left. }
        injection Hk as <- ->.
        destruct (Hstop pre e k x (full_script_well_formed _ _) Hst Hfails)
          as [-> [= ->]].
        split; [apply handler_log_errors |]. split; [done |]. split; [done |].
        intros Hrestore. apply Forall_app_2.
        -- destruct (full_script_events args fs)
             as (before & after & Hevents & Hbefore & Hafter & _).
           rewrite Hsplit, fmap_app, <- Htrace, Hst, <- app_assoc in Hevents.
           simpl in Hevents. symmetry in Hevents.
           apply (split_unique is_restore) in Hevents as (<- & _ & _); try done.
           ++ eapply Forall_impl; [apply Hbefore |]. naive_solver.
           ++ eapply Forall_impl; [apply Hbefore |]. naive_solver.
           ++ eapply Forall_impl; [apply Hafter |]. naive_solver.
        -- eapply Forall_impl; [apply handler_log_errors |].
           intros [] ?; done.
      * destruct (Hnotin (handler_log ex) (handler_log_errors ex)).
        rewrite Hk. apply elem_of_app. right. apply elem_of_cons. by left.
  - rewrite (main_aborted _ _ _ Hparse) in *. simpl in *.
    destruct (respond [] ValidateSupportedRuntime) as [y |] eqn:Hvalidate;
      simpl in *.
    + destruct pre as [|e0 pre]; simpl in Htr.
      * injection Htr as <- <-. simpl in Hfails. rewrite Hvalidate in Hfails.
        injection Hfails as ->.
        split; [apply handler_log_errors |]. by repeat split.
      * injection Htr as _ Htr.
        destruct (Hnotin (handler_log y) (handler_log_errors y)).
        rewrite Htr. apply elem_of_app. right. apply elem_of_cons. by left.
    + destruct pre as [|e0 pre]; simpl in Htr.
      * injection Htr as <- _. simpl in Hfails. congruence.
      * injection Htr as _ Htr.
        assert (e ∈ abort_events ab ++ handler_log (abort_exn ab)) as Hin.
        { rewrite Htr. apply elem_of_app. right. apply elem_of_cons. by left. }
        apply elem_of_app in Hin as [Hin | Hin].
        -- destruct ab; simpl in Hin;
             rewrite ?elem_of_cons, elem_of_nil in Hin; naive_solver.
        -- by destruct (Hnotin _ (handler_log_errors (abort_exn ab))).
Qed.

End sequencing.

Section successful_runs.
Context `{PyRuntime} `{Host} `{World}.

Local Notation "'supported'" := TargetFrameworkAction.get_supported_target_frameworks.

(** C6: in a run that succeeds, the build is invoked exactly once, with all
    the validated targets in that one invocation, and the run operation is
    invoked exactly once per target. *)
Theorem build_once_run_per_target (argv : list cli_option) (d : gset string) :
  (__main argv (initial d)).1 = Ok 0%Z →
  ∃ args fs,
    parse_args argv = Ok args ∧ args_frameworks args = Some fs ∧
    fs ≠ [] ∧ NoDup fs ∧
    List.filter is_build (trace (__main argv (initial d)).2) =
      [Build (args_configuration args) fs (args_verbose args)] ∧
    List.filter is_run (trace (__main argv (initial d)).2) =
      (λ f, Run (args_configuration args) f (args_verbose args) (run_args args)) <$> fs.
Proof.
  intros Hok. destruct (parse_args argv) as [args | ab] eqn:Hparse.
  - destruct (parse_args_valid _ _ Hparse) as (_ & fs & Hfs & Hne & Hnodup & _).
    exists args, fs. repeat (split; [done |]).
    destruct (main_trace_parsed _ _ _ d Hparse Hfs)
      as (finished & rest & tail & Hsplit & -> & _ & Hdone).
    destruct (Hdone Hok) as [-> ->]. rewrite !app_nil_r in *. subst finished.
    destruct (full_script_events args fs)
      as (before & after & -> & Hbefore & _ & Hbuild & Hrun & _).
    rewrite !List.filter_app. simpl. rewrite Hbuild, Hrun.
    rewrite (filter_none is_build before), (filter_none is_run before); [done | |].
    + eapply Forall_impl; [apply Hbefore |]. naive_solver.
    + eapply Forall_impl; [apply Hbefore |]. naive_solver.
  - by destruct (main_trace_aborted _ _ d Hparse) as (_ & _ & _ & ?).
Qed.

(** The Run invocations of a run follow the stored targets in their order:
    all of them when the run succeeds, the first of them otherwise. *)
Lemma run_targets_stored argv args fs d :
  parse_args argv = Ok args → args_frameworks args = Some fs →
  run_targets (trace (__main argv (initial d)).2) `prefix_of` fs ∧
  ((__main argv (initial d)).1 = Ok 0%Z →
   run_targets (trace (__main argv (initial d)).2) = fs).
Proof.
  intros Hparse Hfs.
  destruct (main_trace_parsed _ _ _ d Hparse Hfs)
    as (finished & rest & tail & Hsplit & -> & Htail & Hdone).
  destruct (full_script_events args fs)
    as (before & after & Hevents & Hbefore & _ & _ & _ & Htargets).
  assert (run_targets (event_of <$> full_script args fs) = fs) as Hall.
  { rewrite Hevents, run_targets_app. simpl.
    rewrite (run_targets_none before), Htargets; [done |].
    eapply Forall_impl; [apply Hbefore |]. naive_solver. }
  rewrite Hsplit, fmap_app, run_targets_app in Hall.
  rewrite run_targets_app, (run_targets_none tail), app_nil_r.
  - split; [by eexists |].
    intros Hok. destruct (Hdone Hok) as [-> _]. simpl in Hall.
    by rewrite app_nil_r in Hall.
  - eapply Forall_impl; [apply Htail |]. by intros [] ?.
Qed.

(** C4, as the code has it: when the argument parser exits early, for a
    request for help as for an argument error, no error is logged and
    [__main] returns 1, the value every handler returns. *)
Theorem parser_exit_returns_one (argv : list cli_option) (d : gset string) :
  respond [] ValidateSupportedRuntime = None →
  (parse_args argv = Raise parser_help ∨
   ∃ message, parse_args argv = Raise (parser_error message)) →
  (__main argv (initial d)).1 = Ok 1%Z ∧
  Forall (λ e, is_log_error e = false) (trace (__main argv (initial d)).2) ∧
  ∀ ex st, ex ≠ KeyboardInterrupt → (main_handler ex st).1 = Ok 1%Z.
Proof.
  intros Hvalidate Hexit.
  assert (∃ ab, parse_args argv = Raise ab ∧ handler_log (abort_exn ab) = [] ∧
                handler_result (abort_exn ab) = Ok 1%Z ∧
                Forall (λ e, is_log_error e = false) (abort_events ab))
    as (ab & Hparse & Hlog & Hres & Hevents).
  { destruct Hexit as [Hparse | [message Hparse]]; eexists; (split; [done |]);
      repeat split; repeat constructor. }
  rewrite (main_aborted _ _ _ Hparse). simpl. rewrite Hvalidate. simpl.
  rewrite Hlog, Hres, app_nil_r. split; [done |]. split.
  - by apply Forall_cons.
  - intros ex st Hex. rewrite main_handler_eq. by destruct ex.
Qed.

End successful_runs.

(** ** The claims on concrete command lines *)

(** The command line of the specification's example: a category, an
    alternate runtime, two name filters, the hardware counters and two
    pass-through tokens. *)
Definition example_argv : list cli_option :=
  [ opt_frameworks ["netcoreapp3.0"];
    opt_category "CoreCLR";
    opt_corerun "/opt/coreclr/corerun";
    opt_filter ["*Sort*"; "*Hash*"];
    opt_enable_hardware_counters;
    opt_bdn_arguments "--iterations 5" ].

Lemma run_arguments_example :
  ∃ args,
    @parse_args ascii_runtime posix_host example_argv = Ok args ∧
    run_args args =
      [ "--"; "--allCategories"; "coreclr"; "--coreRun"; "/opt/coreclr/corerun";
        "--counters"; "BranchMispredictions+CacheMisses+InstructionRetired";
        "--filter"; "*Sort*"; "*Hash*"; "--iterations"; "5" ].
Proof.
  eexists. split; [vm_compute; reflexivity |].
  assert (@parse_args ascii_runtime posix_host example_argv =
          Ok {| args_verbose := false; args_configuration := "Release";
                args_frameworks := Some ["netcoreapp3.0"]; args_incremental := "yes";
                args_enable_pmc := true; args_category := Some "coreclr";
                args_filter := Some ["*Sort*"; "*Hash*"];
                args_corerun := Some "/opt/coreclr/corerun"; args_cli := None;
                args_bdn_arguments := Some ["--iterations"; "5"] |}) as Hparse.
  { vm_compute. reflexivity. }
  rewrite (proj1 (@run_arguments_fixed_order ascii_runtime posix_host quiet_world
                    example_argv _ Hparse)).
  reflexivity.
Defined.

Lemma separator_without_flags : run_args default_namespace = ["--"].
Proof.
  apply (proj2 (proj2 (@run_arguments_start_with_separator ascii_runtime posix_host
                         quiet_world [] ∅))); reflexivity.
Defined.

(** C2, as the claim states it, fails: with the targets given as
    netcoreapp2.2 then netcoreapp3.0, a set that yields netcoreapp3.0 first
    stores them in that order, and the Run stage follows the stored order,
    not the order of first occurrence. *)
Lemma stored_order_is_not_first_occurrence :
  @TargetFrameworkAction.__call__ ascii_runtime posix_host None
    ["netcoreapp2.2"; "netcoreapp3.0"] = Ok (Some ["netcoreapp3.0"; "netcoreapp2.2"]) ∧
  run_targets
    (trace (@__main ascii_runtime posix_host quiet_world
              [opt_frameworks ["netcoreapp2.2"; "netcoreapp3.0"]] (initial ∅)).2)
    = ["netcoreapp3.0"; "netcoreapp2.2"] ∧
  run_targets
    (trace (@__main ascii_runtime posix_host quiet_world
              [opt_frameworks ["netcoreapp2.2"; "netcoreapp3.0"]] (initial ∅)).2)
    ≠ first_occurrences ["netcoreapp2.2"; "netcoreapp3.0"].
Proof.
  split; [by vm_compute |]. split; [by vm_compute |].
  vm_compute. discriminate.
Qed.

(** C3 on the specification's example: the parser checks every value against
    the choices of the option before the action runs, so the error names the
    first unsupported target only; the message of the action, which lists
    them all, is never produced. *)
Theorem frameworks_error_names_first_invalid_only :
  @parse_args ascii_runtime posix_host
    [opt_frameworks ["bogus1"; "netcoreapp3.0"; "bogus2"]] =
    Raise (parser_error
      "argument -f/--frameworks: invalid choice: 'bogus1' (choose from 'netcoreapp3.0', 'netcoreapp2.2', 'netcoreapp2.1', 'netcoreapp2.0')") ∧
  substring_of "bogus2"
    "argument -f/--frameworks: invalid choice: 'bogus1' (choose from 'netcoreapp3.0', 'netcoreapp2.2', 'netcoreapp2.1', 'netcoreapp2.0')"
    = false ∧
  @TargetFrameworkAction.__call__ ascii_runtime posix_host None
    ["bogus1"; "netcoreapp3.0"; "bogus2"] = Raise "Invalid choice(s): bogus1, bogus2".
Proof. by vm_compute. Qed.

(** C4, as the claim states it, fails: a request for help makes [__main]
    return 1, not 0. *)
Lemma help_returns_one :
  @parse_args ascii_runtime posix_host [opt_help] = Raise parser_help ∧
  (@__main ascii_runtime posix_host quiet_world [opt_help] (initial ∅)).1 = Ok 1%Z ∧
  (@__main ascii_runtime posix_host quiet_world [opt_help] (initial ∅)).1 ≠ Ok 0%Z.
Proof. split; [by vm_compute |]. split; [by vm_compute |]. vm_compute. discriminate. Qed.

Lemma help_example :
  (@__main ascii_runtime posix_host quiet_world [opt_help] (initial ∅)).1 = Ok 1%Z ∧
  Forall (λ e, is_log_error e = false)
    (trace (@__main ascii_runtime posix_host quiet_world [opt_help] (initial ∅)).2).
Proof.
  destruct (@parser_exit_returns_one ascii_runtime posix_host quiet_world [opt_help] ∅)
    as (Hres & Hlog & _).
  - reflexivity.
  - left. reflexivity.
  - split; [exact Hres | exact Hlog].
Defined.

(** A restore that fails: the trace ends with the restore and the error line. *)
Lemma failing_restore_example :
  Forall (λ e', is_log_error e' = true)
    [LogError ("Command: " +:+ String dquote ("%s" +:+ String dquote ", exited with status: %s"))
       [LStr "dotnet restore"; LInt 1]] ∧
  (@__main ascii_runtime posix_host failing_restore
     [opt_frameworks ["netcoreapp3.0"]] (initial ∅)).1 = Ok 1%Z ∧
  List.filter (λ e, is_build e || is_run e)
    (trace (@__main ascii_runtime posix_host failing_restore
              [opt_frameworks ["netcoreapp3.0"]] (initial ∅)).2) = [].
Proof.
  destruct (@failed_stage_aborts_the_rest ascii_runtime posix_host failing_restore
              [opt_frameworks ["netcoreapp3.0"]] ∅
              [ValidateSupportedRuntime; SetupLoggers false; DotnetInfo false;
               LogInfo "-------------------------------";
               LogInfo "Restoring .NET micro benchmarks";
               LogInfo "-------------------------------"]
              (Restore "/repo/packages" false)
              [LogError ("Command: " +:+ String dquote
                           ("%s" +:+ String dquote ", exited with status: %s"))
                 [LStr "dotnet restore"; LInt 1]]
              (CalledProcessError "dotnet restore" 1))
    as (Hpost & Hres & _ & _).
  - vm_compute. reflexivity.
  - vm_compute. reflexivity.
  - split; [exact Hpost |]. split; [exact Hres |]. vm_compute. reflexivity.
Defined.

(** A run that succeeds for two targets: one build with both, one run each. *)
Lemma successful_run_example :
  ∃ args fs,
    @parse_args ascii_runtime posix_host
      [opt_frameworks ["netcoreapp3.0"; "netcoreapp2.2"]] = Ok args ∧
    args_frameworks args = Some fs ∧
    List.filter is_build
      (trace (@__main ascii_runtime posix_host quiet_world
                [opt_frameworks ["netcoreapp3.0"; "netcoreapp2.2"]] (initial ∅)).2) =
      [Build (args_configuration args) fs (args_verbose args)] ∧
    List.filter is_run
      (trace (@__main ascii_runtime posix_host quiet_world
                [opt_frameworks ["netcoreapp3.0"; "netcoreapp2.2"]] (initial ∅)).2) =
      (λ f, Run (args_configuration args) f (args_verbose args) (run_args args)) <$> fs.
Proof.
  destruct (@build_once_run_per_target ascii_runtime posix_host quiet_world
              [opt_frameworks ["netcoreapp3.0"; "netcoreapp2.2"]] ∅)
    as (args & fs & Hparse & Hfs & _ & _ & Hbuild & Hrun).
  - vm_compute. reflexivity.
  - exists args, fs. split; [exact Hparse |]. split; [exact Hfs |].
    split; [exact Hbuild | exact Hrun].
Defined.

(** ** The clean stage *)

Section cleaning.
Context `{Host} `{World}.

Lemma extend_nil st : extend [] st = st.
Proof. destruct st. unfold extend. simpl. by rewrite app_nil_r. Qed.

Lemma extend_cons e t st : extend (e :: t) st = extend t (record e st).
Proof. unfold extend, record. simpl. by rewrite <- app_assoc. Qed.

(** Removing a directory that is not there raises nothing. *)
Lemma remove_absent path st :
  path ∉ dirs st →
  remove_directory path st = (Ok (), record (RemoveDirectory path) st).
Proof. intros Habsent. unfold remove_directory. by rewrite decide_False. Qed.

Lemma perform_remove_absent l st :
  Forall (λ p, p ∉ dirs st) l →
  perform (Remove <$> l) st = (Ok (), extend (RemoveDirectory <$> l) st).
Proof.
  revert st. induction l as [|p l IH]; intros st Habsent.
  - by rewrite extend_nil.
  - apply Forall_cons in Habsent as [Hp Hl].
    rewrite fmap_cons, perform_cons. simpl act. rewrite (remove_absent _ _ Hp).
    rewrite fmap_cons, extend_cons. by apply IH.
Qed.

Lemma perform_emits es st :
  perform (Emit <$> es) st = (Ok (), extend es st).
Proof.
  revert st. induction es as [|e es IH]; intros st.
  - by rewrite extend_nil.
  - rewrite fmap_cons, perform_cons, extend_cons. apply IH.
Qed.

(** Log lines cannot stop a script: the effect that follows them is
    always attempted. *)
Lemma perform_reaches es a rest st :
  ∃ more,
    trace (perform ((Emit <$> es) ++ a :: rest) st).2 =
      trace st ++ es ++ event_of a :: more.
Proof.
  rewrite perform_app, perform_emits, perform_cons.
  pose proof (act_trace a (extend es st)) as Hact.
  destruct (act a (extend es st)) as [[[] | x] st']; simpl in Hact.
  - destruct (perform_trace rest st') as (finished & _ & _ & -> & _).
    exists (event_of <$> finished). rewrite Hact. by rewrite <- !app_assoc.
  - exists []. simpl. rewrite Hact. by rewrite <- !app_assoc.
Qed.

Lemma header_script_emits message :
  header_script message =
    Emit <$> [ LogInfo (str_repeat "-" (String.length message)); LogInfo message;
               LogInfo (str_repeat "-" (String.length message)) ].
Proof. reflexivity. Qed.

Lemma filter_remove_elem p l :
  RemoveDirectory p ∈ l → RemoveDirectory p ∈ List.filter is_remove l.
Proof.
  rewrite !list_elem_of_In, List.filter_In. by split.
Qed.

(** C7: the removal of the packages directory and of the project's bin and
    obj directories is attempted if and only if the incremental flag is
    "no"; it is over before the restore begins; and directories that are
    already absent raise nothing, so that the restore is then reached. *)
Theorem clean_before_restore
    (configuration : string) (fs : list string) (incremental : string)
    (verbose : bool) (st : State) :
  ∃ delta,
    trace (build configuration (Some fs) incremental verbose st).2 = trace st ++ delta ∧
    ((∃ p, RemoveDirectory p ∈ delta) ↔ incremental = "no") ∧
    (∀ p, RemoveDirectory p ∈ delta → p ∈ binary_folders) ∧
    (∀ pre pk vb post,
       delta = pre ++ Restore pk vb :: post →
       List.filter is_remove pre =
         (if String.eqb incremental "no" then RemoveDirectory <$> binary_folders else []) ∧
       List.filter is_remove post = []) ∧
    (∀ p st', p ∉ dirs st' → (remove_directory p st').1 = Ok ()) ∧
    (incremental = "no" → Forall (λ p, p ∉ dirs st) binary_folders →
     ∃ post,
       delta =
         (event_of <$> header_script "Removing packages, bin and obj folders.") ++
         (RemoveDirectory <$> binary_folders) ++
         (event_of <$> header_script "Restoring .NET micro benchmarks") ++
         Restore packages verbose :: post).
Proof.
  rewrite is_script_build.
  destruct (perform_trace (build_script configuration fs incremental verbose) st)
    as (finished & rest & Hsplit & Htrace & _).
  destruct (build_script_events configuration fs incremental verbose)
    as (before & after & Hevents & Hbefore & Hafter & Hfilter & _).
  rewrite Hsplit, fmap_app in Hevents.
  assert (Forall (λ e, is_remove e = false) after) as Hafter_rm.
  { eapply Forall_impl; [apply Hafter |]. naive_solver. }
  assert (∀ p, RemoveDirectory p ∈ event_of <$> finished →
               RemoveDirectory p ∈ List.filter is_remove before) as Hin_before.
  { intros p Hp.
    assert (RemoveDirectory p ∈ before ++ Restore packages verbose :: after) as Hin.
    { rewrite <- Hevents. apply elem_of_app. by left. }
    apply elem_of_app in Hin as [Hin | Hin]; [by apply filter_remove_elem |].
    apply elem_of_cons in Hin as [? | Hin]; [done |].
    rewrite Forall_forall in Hafter_rm. by apply Hafter_rm in Hin. }
  exists (event_of <$> finished). split; [done |].
  split; [| split; [| split; [| split]]].
  - split.
    + intros [p Hp%Hin_before]. rewrite Hfilter in Hp.
      destruct (String.eqb_spec incremental "no"); [done |].
      by apply elem_of_nil in Hp.
    + intros ->. exists packages.
      destruct (perform_reaches
                  [ LogInfo (str_repeat "-" (String.length
                               "Removing packages, bin and obj folders."));
                    LogInfo "Removing packages, bin and obj folders.";
                    LogInfo (str_repeat "-" (String.length
                               "Removing packages, bin and obj folders.")) ]
                  (Remove packages)
                  ((Remove <$> [path_join working_directory "bin";
                                path_join working_directory "obj"]) ++
                   header_script "Restoring .NET micro benchmarks" ++
                   [Call (Restore packages verbose)] ++
                   header_script ("Building .NET micro benchmarks for '" +:+
                                  join " " fs +:+ "'") ++
                   [Call (Build configuration fs verbose)]) st)
        as (more & Hreach).
      unfold build_script, clean_script in Htrace.
      simpl in Htrace, Hreach. rewrite Htrace in Hreach.
      apply app_inv_head in Hreach. rewrite Hreach.
      do 3 (apply elem_of_cons; right). apply elem_of_cons. by left.
  - intros p Hp%Hin_before. rewrite Hfilter in Hp.
    destruct (String.eqb incremental "no"); [| by apply elem_of_nil in Hp].
    apply list_elem_of_fmap in Hp as (q & [= ->] & Hq). done.
  - intros pre pk vb post Hdelta. rewrite Hdelta, <- app_assoc in Hevents.
    simpl in Hevents. symmetry in Hevents.
    apply (split_unique is_restore) in Hevents as (<- & _ & ->); try done.
    + split; [done |]. apply filter_none.
      by apply Forall_app in Hafter_rm as [? _].
    + eapply Forall_impl; [apply Hbefore |]. naive_solver.
    + eapply Forall_impl; [apply Hafter |]. naive_solver.
  - intros p st' Hp. by rewrite remove_absent.
  - intros -> Habsent.
    unfold build_script, clean_script in Htrace.
    simpl String.eqb in Htrace. cbv iota in Htrace.
    rewrite <- !app_assoc, perform_app in Htrace.
    rewrite header_script_emits, perform_emits, perform_app in Htrace.
    rewrite perform_remove_absent in Htrace by done.
    destruct (perform_reaches
                [ LogInfo (str_repeat "-" (String.length "Restoring .NET micro benchmarks"));
                  LogInfo "Restoring .NET micro benchmarks";
                  LogInfo (str_repeat "-" (String.length "Restoring .NET micro benchmarks")) ]
                (Call (Restore packages verbose))
                (header_script ("Building .NET micro benchmarks for '" +:+
                                join " " fs +:+ "'") ++
                 [Call (Build configuration fs verbose)])
                (extend (RemoveDirectory <$> binary_folders)
                   (extend
                      [ LogInfo (str_repeat "-" (String.length
                                   "Removing packages, bin and obj folders."));
                        LogInfo "Removing packages, bin and obj folders.";
                        LogInfo (str_repeat "-" (String.length
                                   "Removing packages, bin and obj folders.")) ] st)))
      as (more & Hreach).
    exists more. pose proof (eq_trans (eq_sym Htrace) Hreach) as Heq.
    unfold extend in Heq. simpl trace in Heq.
    rewrite <- !app_assoc in Heq. apply app_inv_head in Heq.
    rewrite Heq. reflexivity.
Qed.

End cleaning.

(** An environment in which the removal of any directory that exists is
    refused. *)
Definition refusing_removal : World := λ _ e,
  match e with
  | RemoveDirectory path => Some (IOError 13 "Permission denied" path)
  | _ => None
  end.

(** With none of the three directories present, a clean build goes through
    the three removals and reaches the restore even in that environment. *)
Lemma clean_absent_example :
  ∃ delta,
    trace (@build posix_host refusing_removal "Release" (Some ["netcoreapp3.0"]) "no" false
             (initial ∅)).2 = delta ∧
    ∃ post,
      delta =
        [ LogInfo "---------------------------------------";
          LogInfo "Removing packages, bin and obj folders.";
          LogInfo "---------------------------------------";
          RemoveDirectory "/repo/packages";
          RemoveDirectory "/repo/src/benchmarks/micro/bin";
          RemoveDirectory "/repo/src/benchmarks/micro/obj";
          LogInfo "-------------------------------";
          LogInfo "Restoring .NET micro benchmarks";
          LogInfo "-------------------------------";
          Restore "/repo/packages" false ] ++ post.
Proof.
  destruct (@clean_before_restore posix_host refusing_removal "Release"
              ["netcoreapp3.0"] "no" false (initial ∅))
    as (delta & Htrace & _ & _ & _ & _ & Habsent).
  exists delta. split; [exact Htrace |].
  destruct Habsent as [post Hpost].
  - reflexivity.
  - repeat constructor; apply not_elem_of_empty.
  - exists post. exact Hpost.
Defined.

(** ** The pass-through argument string *)

(** Cutting at every space, with the token under construction. *)
Fixpoint split_acc (token : string) (s : string) : list string :=
  match s with
  | "" => [token]
  | String c rest =>
      if bool_decide (c = " "%char) then token :: split_acc "" rest
      else split_acc (token +:+ String c "") rest
  end.

Section tokens.
Import csv.

Lemma string_app_nil_l s : "" +:+ s = s.
Proof. reflexivity. Qed.

Lemma string_app_cons c s1 s2 : String c s1 +:+ s2 = String c (s1 +:+ s2).
Proof. reflexivity. Qed.

Lemma string_app_nil_r s : s +:+ "" = s.
Proof.
  induction s as [|c s IH]; [done |]. by rewrite string_app_cons, IH.
Qed.

Lemma string_app_assoc s1 s2 s3 : (s1 +:+ s2) +:+ s3 = s1 +:+ (s2 +:+ s3).
Proof.
  induction s1 as [|c s1 IH]; [done |]. by rewrite !string_app_cons, IH.
Qed.

Lemma string_app_length s1 s2 :
  String.length (s1 +:+ s2) = String.length s1 + String.length s2.
Proof.
  induction s1 as [|c s1 IH]; [done |]. rewrite string_app_cons. simpl. by rewrite IH.
Qed.

Lemma split_on_space_cons s : ∃ token tokens, split_on_space s = token :: tokens.
Proof.
  induction s as [|c s (token & tokens & IH)]; simpl; [by eexists _, _ |].
  case_bool_decide; [by eexists _, _ |]. rewrite IH. by eexists _, _.
Qed.

Lemma split_acc_spec token s :
  split_acc token s =
    match split_on_space s with
    | first :: tokens => (token +:+ first) :: tokens
    | [] => [token]
    end.
Proof.
  revert token. induction s as [|c s IH]; intros token; simpl.
  - by rewrite string_app_nil_r.
  - case_bool_decide.
    + rewrite string_app_nil_r, IH.
      by destruct (split_on_space_cons s) as (first & tokens & ->).
    + rewrite IH. destruct (split_on_space_cons s) as (first & tokens & ->).
      by rewrite string_app_assoc, string_app_cons, string_app_nil_l.
Qed.

Lemma split_acc_empty s : split_acc "" s = split_on_space s.
Proof.
  rewrite split_acc_spec. by destruct (split_on_space_cons s) as (first & tokens & ->).
Qed.

(** *** Lines *)

Lemma readlines_one_line line :
  str_contains "010" line = false →
  readlines line = if String.eqb line "" then [] else [line].
Proof.
  induction line as [|c line IH]; simpl; [done |].
  intros [Hc Hline]%orb_false_iff. rewrite bool_decide_false; [| by case_bool_decide].
  rewrite (IH Hline). by destruct line.
Qed.

Lemma process_line_app r l1 l2 :
  process_line r (l1 +:+ l2) =
    match process_line r l1 with
    | Ok r' => process_line r' l2
    | Raise e => Raise e
    end.
Proof.
  revert r. induction l1 as [|c l1 IH]; intros r; [done |].
  rewrite string_app_cons. simpl.
  destruct (parse_process_char r (Some c)); [apply IH | done].
Qed.

(** *** Tokens *)

(** A text without quotes and line ends is cut at its spaces. *)
Lemma process_plain s r :
  plain s = true →
  state r = IN_FIELD ∨ (state r = START_FIELD ∧ field r = "") →
  (N.of_nat (String.length (field r) + String.length s) ≤ field_limit)%N →
  ∃ r' r'',
    process_line r s = Ok r' ∧
    parse_process_char r' None = Ok r'' ∧
    state r'' = START_RECORD ∧
    fields r'' = fields r ++ split_acc (field r) s.
Proof.
  revert r. induction s as [|c s IH]; intros r Hplain Hstate Hlen.
  - exists r. simpl. unfold parse_process_char, start_field.
    destruct Hstate as [-> | [-> _]]; by eexists.
  - simpl in Hplain.
    apply andb_true_iff in Hplain as [[Hquote Hnl]%andb_true_iff Hrest].
    apply negb_true_iff in Hquote, Hnl. apply bool_decide_eq_false in Hquote.
    simpl process_line. simpl split_acc.
    assert (parse_add_char r c =
            Ok {| state := state r; field := field r +:+ String c "";
                  fields := fields r |}) as Hadd.
    { unfold parse_add_char. destruct (N.leb_spec field_limit
        (N.of_nat (String.length (field r)))) as [Hle |]; [| done].
      simpl in Hlen. lia. }
    assert (parse_process_char r (Some c) =
            Ok (if bool_decide (c = " "%char)
                then {| state := START_FIELD; field := ""; fields := fields r ++ [field r] |}
                else {| state := IN_FIELD; field := field r +:+ String c "";
                        fields := fields r |})) as ->.
    { unfold parse_process_char, start_field, quotechar, delimiter.
      destruct Hstate as [Hst | [Hst Hfield]]; rewrite Hst, Hnl, ?Hadd;
        rewrite ?(bool_decide_false (c = dquote)) by done;
        case_bool_decide; unfold set_state, parse_save_field; simpl;
        rewrite ?Hst, ?Hfield; done. }
    case_bool_decide.
    + destruct (IH {| state := START_FIELD; field := "";
                      fields := fields r ++ [field r] |})
        as (r' & r'' & Hline & Heol & Hstart & Hfields); [done | by right | |].
      { simpl in *. lia. }
      exists r', r''. repeat (split; [done |]).
      rewrite Hfields. simpl. by rewrite <- app_assoc.
    + destruct (IH {| state := IN_FIELD; field := field r +:+ String c "";
                      fields := fields r |})
        as (r' & r'' & Hline & Heol & Hstart & Hfields); [done | by left | |].
      { simpl in *. rewrite string_app_length. simpl. lia. }
      by exists r', r''.
Qed.

Lemma plain_one_line s : plain s = true → str_contains "010" s = false.
Proof.
  induction s as [|c s IH]; simpl; [done |].
  intros [[_ Hnl]%andb_true_iff Hrest]%andb_true_iff.
  rewrite (IH Hrest), orb_false_r. apply negb_true_iff in Hnl.
  unfold is_newline in Hnl. apply orb_false_iff in Hnl as [Hlf _].
  apply bool_decide_eq_false in Hlf. by apply bool_decide_eq_false.
Qed.

Lemma process_plain_start s :
  plain s = true → s ≠ "" →
  process_line parse_reset s = process_line (set_state START_FIELD parse_reset) s.
Proof.
  destruct s as [|c s]; [done |]. simpl. intros Hplain _.
  apply andb_true_iff in Hplain as [[_ Hnl]%andb_true_iff _].
  apply negb_true_iff in Hnl.
  unfold parse_process_char, start_field, parse_add_char. simpl.
  by rewrite !Hnl.
Qed.

Lemma tokens_of_plain s :
  plain s = true → s ≠ "" →
  (N.of_nat (String.length s) ≤ field_limit)%N →
  __get_bdn_arguments s = Ok (split_on_space s).
Proof.
  intros Hplain Hne Hlen. unfold __get_bdn_arguments.
  rewrite (readlines_one_line _ (plain_one_line _ Hplain)).
  destruct (String.eqb_spec s "") as [| _]; [done |].
  simpl iternext. rewrite (process_plain_start _ Hplain Hne).
  destruct (process_plain s (set_state START_FIELD parse_reset))
    as (r' & r'' & -> & -> & Hstart & Hfields); [done | by right | done |].
  rewrite bool_decide_true by done. rewrite Hfields. simpl fields.
  simpl app. by rewrite split_acc_empty.
Qed.

Lemma str_contains_app c s1 s2 :
  str_contains c (s1 +:+ s2) = str_contains c s1 || str_contains c s2.
Proof.
  induction s1 as [|d s1 IH]; [done |].
  rewrite string_app_cons. simpl. by rewrite IH, orb_assoc.
Qed.

End tokens.

(** * The first record of the pass-through string *)

(** ** Written records

    A record as it is written: its fields separated by one space, each of
    them bare, or between double quotes with its own double quotes doubled,
    or such a quoted text with a bare text right behind it. *)

Fixpoint escape_quotes (s : string) : string :=
  match s with
  | "" => ""
  | String c rest =>
      if bool_decide (c = dquote) then String dquote (String dquote (escape_quotes rest))
      else String c (escape_quotes rest)
  end.

Definition quoted (token : string) : string :=
  String dquote (escape_quotes token +:+ String dquote "").

(** A text without spaces and line ends. *)
Fixpoint unbroken (s : string) : bool :=
  match s with
  | "" => true
  | String c rest =>
      negb (bool_decide (c = " "%char)) && negb (csv.is_newline c) && unbroken rest
  end.

(** A token that can be written bare: unbroken, and no double quote in front. *)
Definition bare (token : string) : bool :=
  unbroken token &&
  match token with
  | String c _ => negb (bool_decide (c = dquote))
  | "" => true
  end.

Inductive written : Type :=
| Bare (token : string)
| Quoted (token : string)
| Glued (token tail : string).

Definition token_of (w : written) : string :=
  match w with
  | Bare token | Quoted token => token
  | Glued token tail => token +:+ tail
  end.

Definition text_of (w : written) : string :=
  match w with
  | Bare token => token
  | Quoted token => quoted token
  | Glued token tail => quoted token +:+ tail
  end.

Definition writable (w : written) : bool :=
  (N.of_nat (String.length (token_of w)) <=? csv.field_limit)%N &&
  match w with
  | Bare token => bare token
  | Quoted _ => true
  | Glued _ tail => bare tail
  end.

Definition record_text (ws : list written) : string := join " " (text_of <$> ws).

(** ** Where a text stops

    The place in a record at which a text stops, read from the start of a
    record: at the start of a field, in a bare field, in a quoted field,
    behind a double quote seen in a quoted field, or behind a line end that
    was not in a quoted field. *)

Inductive position : Type :=
| field_start
| bare_field
| quoted_field
| closing_quote
| line_end.

#[global] Instance position_eq_dec : EqDecision position.
Proof. solve_decision. Defined.

Definition position_step (p : position) (c : ascii) : position :=
  match p with
  | field_start =>
      if csv.is_newline c then line_end
      else if bool_decide (c = dquote) then quoted_field
      else if bool_decide (c = " "%char) then field_start
      else bare_field
  | bare_field =>
      if csv.is_newline c then line_end
      else if bool_decide (c = " "%char) then field_start
      else bare_field
  | quoted_field =>
      if bool_decide (c = dquote) then closing_quote else quoted_field
  | closing_quote =>
      if bool_decide (c = dquote) then quoted_field
      else if bool_decide (c = " "%char) then field_start
      else if csv.is_newline c then line_end
      else bare_field
  | line_end => line_end
  end.

Fixpoint position_after (p : position) (s : string) : position :=
  match s with
  | "" => p
  | String c rest => position_after (position_step p c) rest
  end.

(** The text stops in a quoted field that is still open. *)
Definition inside_quotes (s : string) : bool :=
  bool_decide (position_after field_start s = quoted_field).

(** ** The reader, character by character *)

(** The end of a line: the record is returned when it is complete, and the
    reading goes on otherwise. *)
Definition end_of_line (r : csv.Reader)
    (continue : csv.Reader → result string (option (list string)))
  : result string (option (list string)) :=
  match csv.parse_process_char r None with
  | Raise e => Raise e
  | Ok r2 =>
      if bool_decide (csv.state r2 = csv.START_RECORD) then Ok (Some (csv.fields r2))
      else continue r2
  end.

(** [iternext] over the text itself; [mid] tells whether the reader is in
    the middle of a line. *)
Fixpoint scan (r : csv.Reader) (mid : bool) (s : string)
  : result string (option (list string)) :=
  match s with
  | "" => if mid then end_of_line r (λ r2, csv.iternext r2 []) else csv.iternext r []
  | String c rest =>
      match csv.parse_process_char r (Some c) with
      | Raise e => Raise e
      | Ok r1 =>
          if bool_decide (c = "010"%char) then end_of_line r1 (λ r2, scan r2 false rest)
          else scan r1 true rest
      end
  end.

Definition position_of (s : csv.ParserState) : position :=
  match s with
  | csv.START_RECORD | csv.START_FIELD => field_start
  | csv.IN_FIELD => bare_field
  | csv.IN_QUOTED_FIELD => quoted_field
  | csv.QUOTE_IN_QUOTED_FIELD => closing_quote
  | csv.EAT_CRNL => line_end
  end.

(** A field has been read and is not yet saved. *)
Definition pending (r : csv.Reader) : Prop :=
  csv.state r = csv.START_FIELD ∨ csv.state r = csv.IN_FIELD ∨
  csv.state r = csv.QUOTE_IN_QUOTED_FIELD.

Section records.
Import csv.

Lemma scan_cons r mid c s :
  scan r mid (String c s) =
    match parse_process_char r (Some c) with
    | Raise e => Raise e
    | Ok r1 =>
        if bool_decide (c = "010"%char) then end_of_line r1 (λ r2, scan r2 false s)
        else scan r1 true s
    end.
Proof. reflexivity. Qed.

Lemma iternext_cons r c line lines :
  iternext r (String c line :: lines) =
    match parse_process_char r (Some c) with
    | Raise e => Raise e
    | Ok r1 => iternext r1 (line :: lines)
    end.
Proof. simpl. by destruct (parse_process_char r (Some c)). Qed.

Lemma iternext_blank r lines :
  iternext r ("" :: lines) = end_of_line r (λ r2, iternext r2 lines).
Proof. reflexivity. Qed.

(** The reader over the lines of a text is the reader over the text. *)
Lemma scan_readlines s r :
  scan r false s = iternext r (readlines s) ∧
  scan r true s = iternext r (match readlines s with [] => [""] | lines => lines end).
Proof.
  revert r. induction s as [|c s IH]; intros r; [done |].
  rewrite !scan_cons. cbn [readlines].
  destruct (bool_decide (c = "010"%char)) eqn:Hc.
  - cbv iota. rewrite iternext_cons.
    destruct (parse_process_char r (Some c)) as [r1 |]; [| done].
    rewrite iternext_blank. unfold end_of_line.
    destruct (parse_process_char r1 None) as [r2 |]; [| done].
    by rewrite (proj1 (IH r2)).
  - destruct (readlines s) as [|line lines] eqn:Hlines; cbv iota; rewrite iternext_cons;
      destruct (parse_process_char r (Some c)) as [r1 |]; try done;
      by rewrite (proj2 (IH r1)).
Qed.

Lemma get_bdn_arguments_scan s :
  __get_bdn_arguments s =
    match scan parse_reset false s with
    | Ok (Some args) => Ok args
    | Ok None => Ok []
    | Raise e => Raise e
    end.
Proof. unfold __get_bdn_arguments. by rewrite (proj1 (scan_readlines s parse_reset)). Qed.

(** *** Where the reader stands *)

Lemma position_of_step r c r1 :
  parse_process_char r (Some c) = Ok r1 →
  position_of (state r1) = position_step (position_of (state r)) c.
Proof.
  unfold parse_process_char, start_field, parse_add_char, quotechar, delimiter.
  destruct r as [[] f fs]; cbn [state set_state parse_save_field position_of position_step];
    destruct (is_newline c), (bool_decide (c = dquote)), (bool_decide (c = " "%char));
    repeat case_match; intros [= <-]; reflexivity.
Qed.

Lemma line_feed_ends_record r r1 :
  state r ≠ IN_QUOTED_FIELD →
  parse_process_char r (Some "010"%char) = Ok r1 →
  ∃ r2, parse_process_char r1 None = Ok r2 ∧ state r2 = START_RECORD.
Proof.
  intros Hstate Hc. destruct r as [[] f fs]; try done;
    vm_compute in Hc; injection Hc as <-; by eexists.
Qed.

Lemma line_feed_in_quotes r r1 :
  state r = IN_QUOTED_FIELD →
  parse_process_char r (Some "010"%char) = Ok r1 →
  parse_process_char r1 None = Ok r1 ∧ state r1 = IN_QUOTED_FIELD.
Proof.
  intros Hstate Hc. apply position_of_step in Hc. rewrite Hstate in Hc.
  assert (state r1 = IN_QUOTED_FIELD) as Hstate1.
  { destruct (state r1); vm_compute in Hc; by try discriminate. }
  split; [| done]. unfold parse_process_char. by rewrite Hstate1.
Qed.

(** What follows the line feed that ends the first record is not read. *)
Lemma scan_first_record first rest r mid :
  mid = true ∨ state r = IN_QUOTED_FIELD ∨ first ≠ "" →
  position_after (position_of (state r)) first ≠ quoted_field →
  scan r mid (first +:+ String "010" rest) = scan r mid first.
Proof.
  revert r mid. induction first as [|c first IH]; intros r mid Hmid Hend.
  - rewrite string_app_nil_l. simpl in Hend.
    assert (mid = true) as ->.
    { destruct Hmid as [? | [Hq | ?]]; [done | | done]. by rewrite Hq in Hend. }
    rewrite scan_cons. destruct r as [[] f fs]; try done; reflexivity.
  - rewrite string_app_cons, !scan_cons.
    destruct (parse_process_char r (Some c)) as [r1 |] eqn:Hc; [| done].
    pose proof (position_of_step _ _ _ Hc) as Hpos.
    simpl in Hend. rewrite <- Hpos in Hend.
    destruct (bool_decide (c = "010"%char)) eqn:Hlf.
    + apply bool_decide_eq_true in Hlf as ->. unfold end_of_line.
      destruct (decide (state r = IN_QUOTED_FIELD)) as [Hq | Hq].
      * destruct (line_feed_in_quotes _ _ Hq Hc) as [-> Hq1].
        rewrite Hq1, bool_decide_false by done.
        apply IH; [by right; left | done].
      * destruct (line_feed_ends_record _ _ Hq Hc) as (r2 & -> & Hstart).
        by rewrite bool_decide_true.
    + apply IH; [by left | done].
Qed.

Lemma first_record_of_text first rest :
  inside_quotes first = false →
  __get_bdn_arguments (first +:+ String "010" rest) = __get_bdn_arguments first.
Proof.
  intros Hquotes. apply bool_decide_eq_false in Hquotes.
  rewrite !get_bdn_arguments_scan.
  destruct first as [|c first]; [reflexivity |].
  rewrite scan_first_record; [done | by right; right | done].
Qed.

(** *** The fields of a written record *)

Lemma add_char r c :
  (N.of_nat (String.length (field r)) < field_limit)%N →
  parse_add_char r c =
    Ok {| state := state r; field := field r +:+ String c ""; fields := fields r |}.
Proof.
  intros Hlen. unfold parse_add_char.
  destruct (N.leb_spec field_limit (N.of_nat (String.length (field r)))); [lia | done].
Qed.

Lemma not_newline c :
  is_newline c = false → c ≠ "010"%char.
Proof.
  unfold is_newline. intros [Hlf _]%orb_false_iff. by apply bool_decide_eq_false in Hlf.
Qed.

Lemma string_snoc s c t : (s +:+ String c "") +:+ t = s +:+ String c t.
Proof. by rewrite string_app_assoc, string_app_cons, string_app_nil_l. Qed.

(** The inside of a quoted field, up to the double quote that closes it. *)
Lemma scan_escaped token r rest mid :
  state r = IN_QUOTED_FIELD →
  (N.of_nat (String.length (field r) + String.length token) ≤ field_limit)%N →
  scan r mid (escape_quotes token +:+ String dquote rest) =
    scan {| state := QUOTE_IN_QUOTED_FIELD; field := field r +:+ token;
            fields := fields r |} true rest.
Proof.
  revert r mid. induction token as [|c token IH]; intros r mid Hstate Hlen.
  - cbn [escape_quotes]. rewrite string_app_nil_l, string_app_nil_r, scan_cons.
    unfold parse_process_char, quotechar. rewrite Hstate.
    by rewrite bool_decide_true.
  - cbn [escape_quotes]. simpl in Hlen.
    destruct (bool_decide (c = dquote)) eqn:Hc.
    + apply bool_decide_eq_true in Hc as ->.
      rewrite !string_app_cons, scan_cons.
      unfold parse_process_char at 1. unfold quotechar. rewrite Hstate.
      rewrite bool_decide_true by done.
      change (bool_decide (dquote = "010"%char)) with false. cbv iota.
      rewrite scan_cons. unfold parse_process_char, quotechar.
      cbn [state set_state]. rewrite bool_decide_true by done.
      rewrite add_char by (cbn [field set_state]; lia).
      change (bool_decide (dquote = "010"%char)) with false. cbv iota.
      rewrite IH; cbn [state field fields set_state]; [| done |].
      * by rewrite string_snoc.
      * rewrite string_app_length. simpl. lia.
    + rewrite string_app_cons, scan_cons.
      unfold parse_process_char, quotechar. rewrite Hstate, Hc.
      rewrite add_char by lia. rewrite Hstate.
      assert (∀ mid', scan {| state := IN_QUOTED_FIELD; field := field r +:+ String c "";
                             fields := fields r |} mid'
                        (escape_quotes token +:+ String dquote rest) =
                      scan {| state := QUOTE_IN_QUOTED_FIELD;
                              field := field r +:+ String c token;
                              fields := fields r |} true rest) as Hrest.
      { intros mid'. rewrite IH; cbn [state field fields]; [| done |].
        - by rewrite string_snoc.
        - rewrite string_app_length. simpl. lia. }
      destruct (bool_decide (c = "010"%char)); [| apply Hrest].
      unfold end_of_line, parse_process_char. cbn [state].
      rewrite bool_decide_false by done. apply Hrest.
Qed.

(** A bare field, behind its first character. *)
Lemma scan_unbroken token r rest :
  state r = IN_FIELD → unbroken token = true →
  (N.of_nat (String.length (field r) + String.length token) ≤ field_limit)%N →
  scan r true (token +:+ rest) =
    scan {| state := IN_FIELD; field := field r +:+ token; fields := fields r |} true rest.
Proof.
  revert r. induction token as [|c token IH]; intros r Hstate Htoken Hlen.
  - rewrite string_app_nil_l, string_app_nil_r. destruct r. simpl in *. by subst.
  - simpl in Htoken, Hlen.
    apply andb_true_iff in Htoken as [[Hspace Hnl]%andb_true_iff Htoken].
    apply negb_true_iff in Hspace, Hnl.
    rewrite string_app_cons, scan_cons.
    unfold parse_process_char, delimiter. rewrite Hstate, Hnl, Hspace.
    rewrite add_char by lia.
    rewrite (bool_decide_false (c = "010"%char)) by by apply not_newline.
    rewrite IH; cbn [state field fields]; [| done | done |].
    + by rewrite string_snoc.
    + rewrite string_app_length. simpl. lia.
Qed.

(** A quoted text, from the start of a field. *)
Lemma scan_quoted token r rest :
  state r = START_FIELD →
  (N.of_nat (String.length (field r) + String.length token) ≤ field_limit)%N →
  scan r true (quoted token +:+ rest) =
    scan {| state := QUOTE_IN_QUOTED_FIELD; field := field r +:+ token;
            fields := fields r |} true rest.
Proof.
  intros Hstate Hlen.
  unfold quoted. rewrite string_app_cons, string_app_assoc, string_app_cons,
    string_app_nil_l, scan_cons.
  unfold parse_process_char, start_field, quotechar. rewrite Hstate.
  change (is_newline dquote) with false. cbv iota.
  rewrite bool_decide_true by done.
  change (bool_decide (dquote = "010"%char)) with false. cbv iota.
  by rewrite scan_escaped.
Qed.

(** One written field, from the start of a field. *)
Lemma scan_field w r rest :
  writable w = true → state r = START_FIELD → field r = "" →
  ∃ r',
    scan r true (text_of w +:+ rest) = scan r' true rest ∧
    pending r' ∧ field r' = token_of w ∧ fields r' = fields r.
Proof.
  intros [Hlen Hw]%andb_true_iff Hstate Hfield. apply N.leb_le in Hlen.
  destruct w as [[|c token] | token | token [|c tail]]; cbn [text_of token_of] in *.
  - exists r. rewrite string_app_nil_l. repeat split; [by left | done].
  - apply andb_true_iff in Hw as [Htoken Hquote]. simpl in Htoken.
    apply andb_true_iff in Htoken as [[Hspace Hnl]%andb_true_iff Htoken].
    apply negb_true_iff in Hspace, Hnl, Hquote.
    exists {| state := IN_FIELD; field := String c token; fields := fields r |}.
    split; [| by split; [right; left |]].
    rewrite string_app_cons, scan_cons.
    unfold parse_process_char, start_field, quotechar, delimiter.
    rewrite Hstate, Hnl, Hquote, Hspace.
    rewrite add_char by (rewrite Hfield; simpl; unfold field_limit; lia).
    rewrite (bool_decide_false (c = "010"%char)) by by apply not_newline.
    rewrite scan_unbroken; cbn [state set_state field fields]; [| done | done |].
    + by rewrite Hfield.
    + rewrite Hfield. simpl in *. lia.
  - exists {| state := QUOTE_IN_QUOTED_FIELD; field := token; fields := fields r |}.
    split; [| by split; [right; right |]].
    rewrite scan_quoted; [| done | by rewrite Hfield]. by rewrite Hfield.
  - exists {| state := QUOTE_IN_QUOTED_FIELD; field := token +:+ ""; fields := fields r |}.
    split; [| by split; [right; right |]].
    rewrite !string_app_nil_r in *.
    rewrite scan_quoted; [| done | by rewrite Hfield]. by rewrite Hfield.
  - apply andb_true_iff in Hw as [Htail Hquote]. simpl in Htail.
    apply andb_true_iff in Htail as [[Hspace Hnl]%andb_true_iff Htail].
    apply negb_true_iff in Hspace, Hnl, Hquote.
    rewrite string_app_length in Hlen. simpl in Hlen.
    exists {| state := IN_FIELD; field := token +:+ String c tail; fields := fields r |}.
    split; [| by split; [right; left |]].
    rewrite string_app_assoc, scan_quoted; [| done | rewrite Hfield; simpl; lia].
    rewrite Hfield, string_app_nil_l, string_app_cons, scan_cons.
    unfold parse_process_char, quotechar, delimiter. cbn [state].
    rewrite Hquote, Hspace, Hnl.
    rewrite add_char by (cbn [field]; lia).
    rewrite (bool_decide_false (c = "010"%char)) by by apply not_newline.
    rewrite scan_unbroken; cbn [state set_state field fields]; [| done | done |].
    + by rewrite string_snoc.
    + rewrite string_app_length. simpl. lia.
Qed.

Lemma pending_end r :
  pending r → scan r true "" = Ok (Some (fields r ++ [field r])).
Proof. destruct r as [[] f fs]; intros [? | [? | ?]]; try done; reflexivity. Qed.

Lemma pending_line_feed r mid rest :
  pending r → scan r mid (String "010" rest) = Ok (Some (fields r ++ [field r])).
Proof. destruct r as [[] f fs]; intros [? | [? | ?]]; try done; reflexivity. Qed.

Lemma pending_space r mid rest :
  pending r →
  scan r mid (String " " rest) =
    scan {| state := START_FIELD; field := ""; fields := fields r ++ [field r] |} true rest.
Proof. destruct r as [[] f fs]; intros [? | [? | ?]]; try done; reflexivity. Qed.

Lemma record_text_cons w w' ws :
  record_text (w :: w' :: ws) = text_of w +:+ String " " (record_text (w' :: ws)).
Proof. reflexivity. Qed.

(** The fields of a written record, and the line feed behind it. *)
Lemma scan_record ws r :
  ws ≠ [] → forallb writable ws = true → state r = START_FIELD → field r = "" →
  scan r true (record_text ws) = Ok (Some (fields r ++ (token_of <$> ws))) ∧
  ∀ rest, scan r true (record_text ws +:+ String "010" rest) =
          Ok (Some (fields r ++ (token_of <$> ws))).
Proof.
  revert r. induction ws as [|w ws IH]; intros r Hne Hws Hstate Hfield; [done |].
  cbn [forallb] in Hws. apply andb_true_iff in Hws as [Hw Hws].
  destruct ws as [|w' ws].
  - change (record_text [w]) with (text_of w). split.
    + destruct (scan_field w r "" Hw Hstate Hfield) as (r' & Hscan & Hpending & Hf & Hfs).
      rewrite string_app_nil_r in Hscan. rewrite Hscan, pending_end by done.
      by rewrite Hf, Hfs.
    + intros rest.
      destruct (scan_field w r (String "010" rest) Hw Hstate Hfield)
        as (r' & Hscan & Hpending & Hf & Hfs).
      rewrite Hscan, pending_line_feed by done. by rewrite Hf, Hfs.
  - rewrite record_text_cons.
    assert (∀ rest, scan r true (text_of w +:+ String " " rest) =
                    scan {| state := START_FIELD; field := "";
                            fields := fields r ++ [token_of w] |} true rest) as Hfirst.
    { intros rest.
      destruct (scan_field w r (String " " rest) Hw Hstate Hfield)
        as (r' & Hscan & Hpending & Hf & Hfs).
      rewrite Hscan, pending_space by done. by rewrite Hf, Hfs. }
    destruct (IH {| state := START_FIELD; field := "";
                    fields := fields r ++ [token_of w] |}) as [Hall Hrest];
      [done | done | done | done |].
    cbn [fields] in Hall, Hrest. split.
    + rewrite Hfirst, Hall. by rewrite <- app_assoc.
    + intros rest. rewrite string_app_assoc, string_app_cons, Hfirst, Hrest.
      by rewrite <- app_assoc.
Qed.

(** The first character of a written record is no line end. *)
Lemma record_text_head ws c text :
  forallb writable ws = true → record_text ws = String c text → is_newline c = false.
Proof.
  destruct ws as [|w ws]; [done |]. cbn [forallb].
  intros [[_ Hw]%andb_true_iff _]%andb_true_iff.
  destruct w as [[|c' token] | token | token tail].
  - destruct ws as [|w' ws]; [done |]. rewrite record_text_cons. by intros [= <- _].
  - apply andb_true_iff in Hw as [Htoken _]. simpl in Htoken.
    apply andb_true_iff in Htoken as [[_ Hnl]%andb_true_iff _].
    apply negb_true_iff in Hnl.
    destruct ws as [|w' ws]; [| rewrite record_text_cons]; by intros [= <- _].
  - destruct ws as [|w' ws]; [| rewrite record_text_cons]; by intros [= <- _].
  - destruct ws as [|w' ws]; [| rewrite record_text_cons]; by intros [= <- _].
Qed.

Lemma scan_start c text mid :
  is_newline c = false →
  scan parse_reset mid (String c text) =
    scan (set_state START_FIELD parse_reset) true (String c text).
Proof.
  intros Hnl. rewrite !scan_cons. unfold parse_process_char. cbn [state parse_reset].
  by rewrite Hnl.
Qed.

Lemma tokens_of_record ws :
  ws ≠ [] → forallb writable ws = true → record_text ws ≠ "" →
  __get_bdn_arguments (record_text ws) = Ok (token_of <$> ws) ∧
  ∀ rest, __get_bdn_arguments (record_text ws +:+ String "010" rest) = Ok (token_of <$> ws).
Proof.
  intros Hne Hws Htext.
  destruct (scan_record ws (set_state START_FIELD parse_reset) Hne Hws eq_refl eq_refl)
    as [Hall Hrest].
  destruct (record_text ws) as [|c text] eqn:Hrecord; [done |].
  pose proof (record_text_head _ _ _ Hws Hrecord) as Hnl.
  split; [| intros rest; rewrite string_app_cons];
    rewrite get_bdn_arguments_scan, scan_start by done.
  - by rewrite Hall.
  - by rewrite <- string_app_cons, Hrest.
Qed.

(** C9, as the code has it: the pass-through string is cut by the reader of
    the [csv] module, with the space as the delimiter and the double quote
    as the quote character.  The empty string gives the empty list.  A
    record written as fields with one space between them gives the tokens
    of its fields: a bare field gives its text, a field between double
    quotes gives the text between them, spaces and line ends included, with
    every doubled double quote taken as one, and a bare text right behind
    the closing quote is added to it; the same holds with a line feed and
    any text behind the record.  A text without double quotes and line
    ends is cut at each of its spaces.  And only the first record is used:
    when a text does not stop inside a quoted field, what follows the line
    feed behind it changes nothing. *)
Theorem bdn_arguments_first_record :
  __get_bdn_arguments "" = Ok [] ∧
  (∀ ws,
     ws ≠ [] → forallb writable ws = true → record_text ws ≠ "" →
     __get_bdn_arguments (record_text ws) = Ok (token_of <$> ws) ∧
     ∀ rest,
       __get_bdn_arguments (record_text ws +:+ String "010" rest) = Ok (token_of <$> ws)) ∧
  (∀ s, plain s = true → s ≠ "" →
        (N.of_nat (String.length s) ≤ csv.field_limit)%N →
        __get_bdn_arguments s = Ok (split_on_space s)) ∧
  (∀ first rest,
     inside_quotes first = false →
     __get_bdn_arguments (first +:+ String "010" rest) = __get_bdn_arguments first).
Proof.
  split; [done |]. split; [apply tokens_of_record |].
  split; [apply tokens_of_plain | apply first_record_of_text].
Qed.

End records.

(** The tokens of the specification's example; a second line that is not
    read; a quoted field behind a bare one; a tabulator, which does not
    separate; and a record whose quoted field holds a line feed, with a
    further line that is not read. *)
Lemma bdn_arguments_examples :
  __get_bdn_arguments "--iterations 5" = Ok ["--iterations"; "5"] ∧
  __get_bdn_arguments ("--iterations 5" +:+ String "010" "--runtimes core") =
    Ok ["--iterations"; "5"] ∧
  __get_bdn_arguments ("a " +:+ String dquote ("b c" +:+ String dquote "")) =
    Ok ["a"; "b c"] ∧
  __get_bdn_arguments ("a" +:+ String "009" "b c") = Ok ["a" +:+ String "009" "b"; "c"] ∧
  __get_bdn_arguments
    (String dquote ("a" +:+ String "010" ("b" +:+ String dquote (" c" +:+
       String "010" "d")))) = Ok ["a" +:+ String "010" "b"; "c"].
Proof.
  destruct bdn_arguments_first_record as (_ & Hrecord & Hplain & Hfirst).
  assert (__get_bdn_arguments "--iterations 5" = Ok ["--iterations"; "5"]) as Htokens.
  { rewrite Hplain; [reflexivity | reflexivity | discriminate |].
    vm_compute. discriminate. }
  split; [exact Htokens |]. split.
  { rewrite Hfirst; [exact Htokens | reflexivity]. }
  split.
  { apply (Hrecord [Bare "a"; Quoted "b c"]); [discriminate | reflexivity | discriminate]. }
  split.
  { apply (Hrecord [Bare ("a" +:+ String "009" "b"); Bare "c"]);
      [discriminate | reflexivity | discriminate]. }
  change (String dquote ("a" +:+ String "010" ("b" +:+ String dquote (" c" +:+
            String "010" "d"))))
    with (String dquote ("a" +:+ String "010" ("b" +:+ String dquote " c")) +:+
          String "010" "d").
  rewrite Hfirst by reflexivity.
  apply (Hrecord [Quoted ("a" +:+ String "010" "b"); Bare "c"]);
    [discriminate | reflexivity | discriminate].
Defined.

(** C9, as the claim states it, fails: of a text of two lines whose first
    line opens a quoted field, the second line is read as well.  The first
    record holds the line feed and the text of the second line up to the
    closing quote as its first token, and what follows on the second line
    as its second; the first line alone gives another list. *)
Lemma second_line_is_read :
  csv.readlines (String dquote ("a" +:+ String "010" ("b" +:+ String dquote " c"))) =
    [String dquote ("a" +:+ String "010" ""); "b" +:+ String dquote " c"] ∧
  __get_bdn_arguments (String dquote ("a" +:+ String "010" ("b" +:+ String dquote " c"))) =
    Ok ["a" +:+ String "010" "b"; "c"] ∧
  __get_bdn_arguments (String dquote ("a" +:+ String "010" "")) =
    Ok ["a" +:+ String "010" ""] ∧
  __get_bdn_arguments (String dquote ("a" +:+ String "010" ("b" +:+ String dquote " c"))) ≠
    __get_bdn_arguments (String dquote ("a" +:+ String "010" "")).
Proof.
  split; [by vm_compute |]. split; [by vm_compute |]. split; [by vm_compute |].
  vm_compute. discriminate.
Qed.


(** * Further properties of the script *)

(** ** Supported targets and their channels *)

Section channels.
Context `{Host}.

Local Notation "'supported'" := TargetFrameworkAction.get_supported_target_frameworks.

(** X1: a channel is known exactly for the four netcoreapp targets; net461
    is supported on win32 only, and it is the one supported target without a
    channel. *)
Theorem channel_of_supported_target (framework : string) :
  (is_Some (TargetFrameworkAction.get_channel framework) ↔
   framework ∈ ["netcoreapp3.0"; "netcoreapp2.2"; "netcoreapp2.1"; "netcoreapp2.0"]) ∧
  ("net461" ∈ supported ↔ platform = "win32") ∧
  (framework ∈ supported →
   (TargetFrameworkAction.get_channel framework = None ↔
    framework = "net461" ∧ platform = "win32")).
Proof.
  assert (is_Some (TargetFrameworkAction.get_channel framework) ↔
          framework ∈ ["netcoreapp3.0"; "netcoreapp2.2"; "netcoreapp2.1"; "netcoreapp2.0"])
    as Hchannel.
  { unfold TargetFrameworkAction.get_channel,
      TargetFrameworkAction.__get_framework_channel_map.
    cbn [List.find fst]. rewrite !elem_of_cons, elem_of_nil.
    repeat match goal with
      | |- context [String.eqb ?known framework] =>
          destruct (String.eqb_spec known framework) as [<- | ?];
          [split; [intros _; auto 6 | intros _; simpl; by eexists] |]
      end.
    split; [intros [? Hx]; simpl in Hx; discriminate | naive_solver]. }
  split; [exact Hchannel |].
  unfold TargetFrameworkAction.get_supported_target_frameworks,
    TargetFrameworkAction.__get_framework_channel_map.
  cbn [fmap list_fmap fst].
  destruct (String.eqb_spec platform "win32") as [Hwin | Hother].
  - split; [split; [done | intros _; set_solver] |].
    intros Hin. rewrite eq_None_not_Some, Hchannel.
    rewrite !elem_of_app, !elem_of_cons, !elem_of_nil in *.
    split; [| intros [-> _] Hbad; naive_solver].
    intros Hnone. split; [| done]. naive_solver.
  - split.
    + rewrite !elem_of_cons, elem_of_nil. split; [naive_solver | done].
    + intros Hin. rewrite eq_None_not_Some, Hchannel. split; [done |].
      intros [-> _]. rewrite !elem_of_cons, elem_of_nil in Hin. naive_solver.
Qed.

End channels.

(** ** What the parser accepts *)

Section more_parsing.
Context `{PyRuntime} `{Host}.

Local Notation "'supported'" := TargetFrameworkAction.get_supported_target_frameworks.

Lemma consume_optionals_app ns argv1 argv2 :
  consume_optionals ns (argv1 ++ argv2) =
    match consume_optionals ns argv1 with
    | Ok ns' => consume_optionals ns' argv2
    | Raise e => Raise e
    end.
Proof.
  revert ns. induction argv1 as [|o argv1 IH]; intros ns; simpl; [done |].
  destruct (take_action ns o); [apply IH | done].
Qed.

Lemma take_action_other_frameworks ns o ns' :
  is_opt_frameworks o = false → take_action ns o = Ok ns' →
  args_frameworks ns' = args_frameworks ns.
Proof.
  intros Ho Htake. destruct o; try done; simpl in Htake; unfold _get_value in Htake;
    repeat case_match; by simplify_eq.
Qed.

Lemma consume_optionals_other_frameworks argv ns ns' :
  existsb is_opt_frameworks argv = false → consume_optionals ns argv = Ok ns' →
  args_frameworks ns' = args_frameworks ns.
Proof.
  revert ns. induction argv as [|o argv IH]; intros ns; simpl.
  - by intros _ [= <-].
  - intros [Ho Hrest]%orb_false_iff.
    destruct (take_action ns o) as [ns1 |] eqn:Htake; [| done].
    intros Hcons. rewrite (IH _ Hrest Hcons). by eapply take_action_other_frameworks.
Qed.

(** X2: every namespace that [parse_args] returns holds a supported
    configuration, an incremental flag that is yes or no, a non-empty list of
    distinct supported targets, a category that is unset or one of coreclr and
    corefx, name filters that are unset or non-empty, and paths that are unset
    or name existing files; and the command line it came from gave the
    targets and held no unrecognized argument. *)
Theorem parsed_namespace_invariant (argv : list cli_option) (args : Namespace) :
  parse_args argv = Ok args →
  args_configuration args ∈ ["Release"; "Debug"] ∧
  args_incremental args ∈ ["yes"; "no"] ∧
  (∃ fs, args_frameworks args = Some fs ∧ fs ≠ [] ∧ NoDup fs ∧
         Forall (λ f, f ∈ supported) fs) ∧
  (∀ c, args_category args = Some c → c ∈ ["coreclr"; "corefx"]) ∧
  (∀ l, args_filter args = Some l → l ≠ []) ∧
  (∀ p, args_corerun args = Some p → isfile p = true) ∧
  (∀ p, args_cli args = Some p → isfile p = true) ∧
  existsb is_opt_frameworks argv = true ∧
  unrecognized argv = [].
Proof.
  intros Hparse.
  destruct (parse_args_valid _ _ Hparse) as ([Hc Hi _ Hcat Hfil Hcr Hcl] & Hfs).
  repeat (split; [done |]).
  unfold parse_args in Hparse.
  destruct (consume_optionals default_namespace argv); [| done].
  destruct (existsb is_opt_frameworks argv); [| done].
  split; [done |]. simpl in Hparse. by destruct (unrecognized argv).
Qed.

(** X3: when the targets are given more than once, the last list given is
    the one that is stored, as the elements of its set. *)
Theorem last_frameworks_option_wins
    (before after : list cli_option) (values : list string) (args : Namespace) :
  parse_args (before ++ opt_frameworks values :: after) = Ok args →
  existsb is_opt_frameworks after = false →
  args_frameworks args = Some (set_to_list values) ∧
  values ≠ [] ∧ Forall (λ f, f ∈ supported) values.
Proof.
  intros Hparse Hafter. unfold parse_args in Hparse.
  destruct (consume_optionals default_namespace _) as [ns |] eqn:Hcons; [| done].
  assert (args = ns) as ->.
  { destruct (negb _); [done |]. by destruct (unrecognized _); simplify_eq. }
  rewrite consume_optionals_app in Hcons.
  destruct (consume_optionals default_namespace before) as [ns1 |]; [| done].
  simpl in Hcons.
  destruct values as [|v values]; [done |].
  destruct (_check_values _ _ (v :: values)) as [u |] eqn:Hcheck; [| done].
  apply check_values_inv in Hcheck.
  rewrite (call_valid _ _ _ Hcheck) in Hcons.
  rewrite (consume_optionals_other_frameworks _ _ _ Hafter Hcons). by simpl.
Qed.

Lemma consume_optionals_fails o argv ns :
  o ∈ argv → (∀ ns', ∃ e, take_action ns' o = Raise e) →
  ∃ e, consume_optionals ns argv = Raise e.
Proof.
  intros Hin Hfail. revert ns.
  induction argv as [|o' argv IH]; intros ns; [by apply elem_of_nil in Hin |].
  simpl. destruct (take_action ns o') as [ns1 |] eqn:Htake; [| by eexists].
  apply elem_of_cons in Hin as [-> | Hin]; [| by apply IH].
  destruct (Hfail ns) as [e He]. congruence.
Qed.

End more_parsing.

Section missing_files.
Context `{PyRuntime} `{Host} `{World}.

(** X4: a path given to --corerun or --cli that names no file makes the parse
    fail with an error naming the resolved path, [__main] does not return 0,
    and no directory is removed and no stage of the external tool is invoked. *)
Theorem missing_file_stops_before_any_stage
    (argv : list cli_option) (value : string) (d : gset string) :
  opt_corerun value ∈ argv ∨ opt_cli value ∈ argv →
  isfile (abspath value) = false →
  (∀ ns, take_action ns (opt_corerun value) =
           Raise (parser_error ("argument --corerun: " +:+ abspath value +:+
                                " does not exist."))) ∧
  (∀ ns, take_action ns (opt_cli value) =
           Raise (parser_error ("argument --cli: " +:+ abspath value +:+
                                " does not exist."))) ∧
  (∃ ab, parse_args argv = Raise ab) ∧
  (__main argv (initial d)).1 ≠ Ok 0%Z ∧
  Forall (λ e, is_stage e = false ∧ is_remove e = false)
    (trace (__main argv (initial d)).2).
Proof.
  intros Hin Hmissing.
  assert (∀ ns, take_action ns (opt_corerun value) =
                  Raise (parser_error ("argument --corerun: " +:+ abspath value +:+
                                       " does not exist."))) as Hcorerun.
  { intros ns. simpl. unfold __valid_file_path. by rewrite Hmissing. }
  assert (∀ ns, take_action ns (opt_cli value) =
                  Raise (parser_error ("argument --cli: " +:+ abspath value +:+
                                       " does not exist."))) as Hcli.
  { intros ns. simpl. unfold __valid_file_path. by rewrite Hmissing. }
  split; [done |]. split; [done |].
  assert (∃ ab, parse_args argv = Raise ab) as [ab Hparse].
  { assert (∃ e, consume_optionals default_namespace argv = Raise e) as [e He].
    { destruct Hin as [Hin | Hin]; (eapply consume_optionals_fails; [exact Hin |]);
        intros ns; eexists; [apply Hcorerun | apply Hcli]. }
    exists e. unfold parse_args. by rewrite He. }
  split; [by exists ab |].
  destruct (main_trace_aborted _ _ d Hparse) as (tail & -> & Htail & Hres).
  split; [done |]. apply Forall_cons. split; [done |].
  eapply Forall_impl; [apply Htail |]. naive_solver.
Qed.

End missing_files.

(** ** More on the pass-through argument string *)

(** The number of spaces of a text. *)
Fixpoint count_spaces (s : string) : nat :=
  match s with
  | "" => 0
  | String c rest => (if bool_decide (c = " "%char) then 1 else 0) + count_spaces rest
  end.

Section more_tokens.
Import csv.

Lemma concat_cons_char sep c token tokens :
  String.concat sep (String c token :: tokens) = String c (String.concat sep (token :: tokens)).
Proof. by destruct tokens. Qed.

Lemma join_split_on_space s : join " " (split_on_space s) = s.
Proof.
  unfold join. induction s as [|c s IH]; [done |]. simpl split_on_space.
  destruct (split_on_space_cons s) as (token & tokens & Hs). rewrite Hs in *.
  case_bool_decide as Hc.
  - subst c. change (String.concat " " ("" :: token :: tokens))
      with (String " " (String.concat " " (token :: tokens))). by rewrite IH.
  - by rewrite concat_cons_char, IH.
Qed.

Lemma length_split_on_space s : length (split_on_space s) = S (count_spaces s).
Proof.
  induction s as [|c s IH]; [done |]. simpl.
  destruct (split_on_space_cons s) as (token & tokens & Hs). rewrite Hs in *.
  case_bool_decide; simpl in *; lia.
Qed.

(** X5: on a non-empty text without quotes and line ends, the tokens joined
    again by single spaces are the text itself; there is one token more than
    there are spaces, so that leading, trailing and repeated spaces give
    empty tokens. *)
Theorem bdn_arguments_round_trip (s : string) :
  plain s = true → s ≠ "" →
  (N.of_nat (String.length s) ≤ field_limit)%N →
  ∃ tokens,
    __get_bdn_arguments s = Ok tokens ∧
    join " " tokens = s ∧
    length tokens = S (count_spaces s).
Proof.
  intros Hplain Hne Hlen. exists (split_on_space s).
  split; [by apply tokens_of_plain |].
  split; [apply join_split_on_space | apply length_split_on_space].
Qed.

(** On plain text the parser stays between the fields of one record. *)
Lemma process_plain_state s r :
  plain s = true →
  state r = IN_FIELD ∨ state r = START_FIELD →
  (N.of_nat (String.length (field r) + String.length s) ≤ field_limit)%N →
  ∃ r', process_line r s = Ok r' ∧ (state r' = IN_FIELD ∨ state r' = START_FIELD).
Proof.
  revert r. induction s as [|c s IH]; intros r Hplain Hstate Hlen; [by exists r |].
  simpl in Hplain.
  apply andb_true_iff in Hplain as [[Hquote Hnl]%andb_true_iff Hrest].
  apply negb_true_iff in Hquote, Hnl. apply bool_decide_eq_false in Hquote.
  simpl process_line.
  assert (∃ r1, parse_process_char r (Some c) = Ok r1 ∧
                (state r1 = IN_FIELD ∨ state r1 = START_FIELD) ∧
                (String.length (field r1) ≤ S (String.length (field r)))%nat)
    as (r1 & -> & Hstate1 & Hlen1).
  { unfold parse_process_char, start_field, parse_add_char, quotechar, delimiter.
    destruct (N.leb_spec field_limit (N.of_nat (String.length (field r))))
      as [Hle |]; [simpl in Hlen; lia |].
    destruct Hstate as [Hst | Hst]; rewrite Hst, Hnl;
      rewrite ?(bool_decide_false (c = dquote)) by done;
      case_bool_decide; eexists; (split; [done |]); simpl;
      rewrite ?string_app_length; simpl; split; auto; lia. }
  apply IH; [done | done |]. simpl in Hlen. lia.
Qed.

(** X6: a carriage return inside unquoted text, followed on the same line by
    a character that is not a line end, makes the reader raise the error of
    the [csv] module instead of returning tokens. *)
Theorem bdn_arguments_carriage_return (before : string) (c : ascii) (after : string) :
  plain before = true → is_newline c = false →
  str_contains "010" after = false →
  (N.of_nat (String.length before) ≤ field_limit)%N →
  __get_bdn_arguments (before +:+ String "013" (String c after)) =
    Raise "new-line character seen in unquoted field - do you need to open the file in universal-newline mode?".
Proof.
  intros Hplain Hc Hafter Hlen. unfold __get_bdn_arguments.
  assert (str_contains "010" (before +:+ String "013" (String c after)) = false) as Hline.
  { rewrite str_contains_app, (plain_one_line _ Hplain). simpl. rewrite Hafter.
    unfold is_newline in Hc. apply orb_false_iff in Hc as [Hlf _].
    apply bool_decide_eq_false in Hlf. rewrite (bool_decide_false ("010"%char = c)); done. }
  rewrite (readlines_one_line _ Hline).
  destruct (String.eqb_spec (before +:+ String "013" (String c after)) "") as [Hempty | _].
  { by destruct before. }
  unfold iternext. rewrite process_line_app.
  assert (∃ r, process_line parse_reset before = Ok r ∧ state r ≠ IN_QUOTED_FIELD ∧
               state r ≠ QUOTE_IN_QUOTED_FIELD ∧ state r ≠ EAT_CRNL)
    as (r & -> & Hq & Hqq & Heat).
  { destruct (String.eqb_spec before "") as [-> | Hne]; [by exists parse_reset |].
    rewrite (process_plain_start _ Hplain Hne).
    destruct (process_plain_state before (set_state START_FIELD parse_reset))
      as (r & Hr & Hstate); [done | by right | done |].
    exists r. split; [done |]. destruct Hstate as [-> | ->]; done. }
  simpl process_line. unfold parse_process_char, start_field.
  destruct r as [[] f fs]; simpl in *; try done; by rewrite Hc.
Qed.

End more_tokens.

(** ** More on the entry point *)

(** The three lines of a section header. *)
Definition header_lines (message : string) : list event :=
  [ LogInfo (str_repeat "-" (String.length message));
    LogInfo message;
    LogInfo (str_repeat "-" (String.length message)) ].

(** The title under which a stage of the external tool is announced. *)
Definition stage_title (e : event) : string :=
  match e with
  | Restore _ _ => "Restoring .NET micro benchmarks"
  | Build _ frameworks _ =>
      "Building .NET micro benchmarks for '" +:+ join " " frameworks +:+ "'"
  | Run _ framework _ _ => "Running .NET micro benchmarks for '" +:+ framework +:+ "'"
  | _ => ""
  end.

(** Every stage of the list comes right after the header that announces it. *)
Definition headed (l : list event) : Prop :=
  ∀ pre e post, l = pre ++ e :: post → is_stage e = true →
                ∃ pre', pre = pre' ++ header_lines (stage_title e).

(** The stages of a run whose arguments are [args], in order. *)
Definition expected_stages `{Host} (args : Namespace) (fs : list string) : list event :=
  Restore packages (args_verbose args) ::
  Build (args_configuration args) fs (args_verbose args) ::
  ((λ f, Run (args_configuration args) f (args_verbose args) (run_args args)) <$> fs).

(** The whole trace of a run that succeeds. *)
Definition expected_trace `{Host} (args : Namespace) (fs : list string) : list event :=
  [ ValidateSupportedRuntime; SetupLoggers (args_verbose args);
    DotnetInfo (args_verbose args) ] ++
  (if String.eqb (args_incremental args) "no"
   then header_lines "Removing packages, bin and obj folders." ++
        (RemoveDirectory <$> binary_folders)
   else []) ++
  header_lines "Restoring .NET micro benchmarks" ++
  [Restore packages (args_verbose args)] ++
  header_lines ("Building .NET micro benchmarks for '" +:+ join " " fs +:+ "'") ++
  [Build (args_configuration args) fs (args_verbose args)] ++
  (fs ≫= λ f,
     header_lines ("Running .NET micro benchmarks for '" +:+ f +:+ "'") ++
     [Run (args_configuration args) f (args_verbose args) (run_args args)]).

Section headers.

Lemma headed_no_stage l : Forall (λ e, is_stage e = false) l → headed l.
Proof.
  intros Hl pre e post -> He. rewrite Forall_app, Forall_cons in Hl.
  destruct Hl as (_ & He' & _). congruence.
Qed.

Lemma headed_app l1 l2 : headed l1 → headed l2 → headed (l1 ++ l2).
Proof.
  intros H1 H2 pre e post Heq He.
  apply app_eq_inv in Heq as [(k & Hl1 & Hk) | (k & Hpre & Hl2)].
  - destruct k as [|e' k]; simpl in Hk.
    + destruct (H2 [] e post (eq_sym Hk) He) as [pre' Hpre'].
      by destruct pre' as [|? [|? [|? ?]]].
    + injection Hk as <- _. by apply (H1 pre e k).
  - destruct (H2 k e post Hl2 He) as [pre' ->].
    exists (l1 ++ pre'). by rewrite Hpre, app_assoc.
Qed.

Lemma headed_prefix l1 l2 : headed (l1 ++ l2) → headed l1.
Proof.
  intros Hl pre e post -> He. apply (Hl pre e (post ++ l2)); [| done].
  by rewrite <- app_assoc.
Qed.

Lemma headed_stage e :
  is_stage e = true → headed (header_lines (stage_title e) ++ [e]).
Proof.
  intros He pre e' post Heq He'.
  destruct pre as [|e1 [|e2 [|e3 [|e4 pre]]]]; simpl in Heq.
  - injection Heq as <- _. done.
  - injection Heq as _ <- _. done.
  - injection Heq as _ _ <- _. done.
  - injection Heq as <- <- <- <- _. by exists [].
  - injection Heq as _ _ _ _ Heq. by destruct pre.
Qed.

Lemma headed_full_script `{Host} args fs : headed (event_of <$> full_script args fs).
Proof.
  unfold full_script, main_script, build_script, clean_script, runs_script.
  rewrite fmap_cons, !fmap_app.
  apply (headed_app [_]); [by apply headed_no_stage; repeat constructor |].
  apply headed_app; [by apply headed_no_stage; repeat constructor |].
  apply headed_app.
  - apply headed_app.
    { apply headed_no_stage. destruct (String.eqb _ _); repeat constructor. }
    rewrite app_assoc. apply headed_app.
    + apply (headed_stage (Restore packages (args_verbose args))). done.
    + apply (headed_stage (Build (args_configuration args) fs (args_verbose args))). done.
  - induction fs as [|f fs IH]; [by apply headed_no_stage |].
    change (event_of <$> ((f :: fs) ≫= ?k)) with
      (event_of <$> (k f ++ (fs ≫= k))).
    rewrite fmap_app. apply headed_app; [| apply IH].
    apply (headed_stage (Run (args_configuration args) f (args_verbose args)
                             (run_args args))). done.
Qed.

End headers.

Section more_runs.
Context `{PyRuntime} `{Host} `{World}.

Lemma stage_events_script args fs :
  List.filter is_stage (event_of <$> full_script args fs) = expected_stages args fs.
Proof.
  unfold full_script. rewrite fmap_cons.
  change (List.filter is_stage (event_of <$> main_script args fs) = expected_stages args fs).
  unfold main_script, build_script, clean_script, expected_stages.
  rewrite !fmap_app, !List.filter_app, <- !app_assoc.
  assert (List.filter is_stage
            (event_of <$> (if String.eqb (args_incremental args) "no"
                           then header_script "Removing packages, bin and obj folders." ++
                                (Remove <$> binary_folders)
                           else [])) = []) as ->.
  { by destruct (String.eqb _ _). }
  assert (List.filter is_stage (event_of <$> runs_script args fs) =
          (λ f, Run (args_configuration args) f (args_verbose args) (run_args args)) <$> fs)
    as ->; [| done].
  induction fs as [|f fs IH]; [done |].
  change (runs_script args (f :: fs))
    with (run_script (args_configuration args) f (args_verbose args) (run_args args)
          ++ runs_script args fs).
  by rewrite fmap_app, List.filter_app, IH.
Qed.

Lemma events_full_script args fs :
  event_of <$> full_script args fs = expected_trace args fs.
Proof.
  assert (event_of <$> clean_script (args_incremental args) =
          (if String.eqb (args_incremental args) "no"
           then header_lines "Removing packages, bin and obj folders." ++
                (RemoveDirectory <$> binary_folders)
           else [])) as Hclean.
  { unfold clean_script. by destruct (String.eqb _ _). }
  assert (event_of <$> runs_script args fs =
          fs ≫= λ f,
            header_lines ("Running .NET micro benchmarks for '" +:+ f +:+ "'") ++
            [Run (args_configuration args) f (args_verbose args) (run_args args)])
    as Hruns.
  { induction fs as [|f fs IH]; [done |].
    change (runs_script args (f :: fs))
      with (run_script (args_configuration args) f (args_verbose args) (run_args args)
            ++ runs_script args fs).
    by rewrite fmap_app, IH. }
  unfold full_script, main_script, build_script, expected_trace.
  rewrite fmap_cons, !fmap_app, Hclean, Hruns, <- !app_assoc. reflexivity.
Qed.

(** Where an effect raises, the trace goes on with the lines of the handler
    of its exception and with nothing else. *)
Lemma raise_point argv d pre e post x :
  trace (__main argv (initial d)).2 = pre ++ e :: post →
  fails (d ∖ removed pre) pre e = Some x →
  post = handler_log x ∧ (__main argv (initial d)).1 = handler_result x.
Proof.
  intros Htr Hfails.
  destruct (fails_inv _ _ _ _ Hfails) as [Hkind Hnolog].
  assert (∀ l, Forall (λ e', is_log_error e' = true) l → e ∉ l) as Hnotin.
  { intros l Hl Hin. rewrite Forall_forall in Hl. apply Hl in Hin. congruence. }
  destruct (parse_args argv) as [args | ab] eqn:Hparse.
  - destruct (parse_args_valid _ _ Hparse) as (_ & fs & Hfs & _).
    rewrite (main_parsed _ _ _ _ Hparse Hfs) in *.
    pose proof (perform_fail_stop (full_script args fs) (initial d)) as Hstop.
    destruct (perform (full_script args fs) (initial d)) as [[[] | ex] st'];
      simpl in *.
    + by destruct (Hstop pre e post x (full_script_well_formed _ _) Htr Hfails) as [_ ?].
    + apply app_eq_inv in Htr as [(k & Hst & Hk) | (k & _ & Hk)].
      * destruct k as [|e' k]; simpl in Hk.
        { destruct (Hnotin (handler_log ex) (handler_log_errors ex)).
          rewrite <- Hk. apply elem_of_cons. by left. }
        injection Hk as <- ->.
        by destruct (Hstop pre e k x (full_script_well_formed _ _) Hst Hfails)
          as [-> [= ->]].
      * destruct (Hnotin (handler_log ex) (handler_log_errors ex)).
        rewrite Hk. apply elem_of_app. right. apply elem_of_cons. by left.
  - rewrite (main_aborted _ _ _ Hparse) in *. simpl in *.
    destruct (respond [] ValidateSupportedRuntime) as [y |] eqn:Hvalidate;
      simpl in *.
    + destruct pre as [|e0 pre]; simpl in Htr.
      * injection Htr as <- <-. simpl in Hfails. rewrite Hvalidate in Hfails.
        by injection Hfails as ->.
      * injection Htr as _ Htr.
        destruct (Hnotin (handler_log y) (handler_log_errors y)).
        rewrite Htr. apply elem_of_app. right. apply elem_of_cons. by left.
    + destruct pre as [|e0 pre]; simpl in Htr.
      * injection Htr as <- _. simpl in Hfails. congruence.
      * injection Htr as _ Htr.
        assert (e ∈ abort_events ab ++ handler_log (abort_exn ab)) as Hin.
        { rewrite Htr. apply elem_of_app. right. apply elem_of_cons. by left. }
        apply elem_of_app in Hin as [Hin | Hin].
        -- destruct ab; simpl in Hin;
             rewrite ?elem_of_cons, elem_of_nil in Hin; naive_solver.
        -- by destruct (Hnotin _ (handler_log_errors (abort_exn ab))).
Qed.

(** X7: an error of the [csv] reader in the pass-through string is not an
    argument error: once the options before it are accepted, [parse_args]
    lets it through, and [__main] logs it as an unexpected error, in two
    lines, and returns 1 without having gone past the check of the runtime. *)
Theorem tokenizer_error_is_unexpected
    (before after : list cli_option) (value message : string)
    (ns : Namespace) (d : gset string) :
  respond [] ValidateSupportedRuntime = None →
  consume_optionals default_namespace before = Ok ns →
  __get_bdn_arguments value = Raise message →
  parse_args (before ++ opt_bdn_arguments value :: after) =
    Raise (type_exception "_csv.Error" message) ∧
  (__main (before ++ opt_bdn_arguments value :: after) (initial d)).1 = Ok 1%Z ∧
  ∃ text,
    trace (__main (before ++ opt_bdn_arguments value :: after) (initial d)).2 =
      [ ValidateSupportedRuntime;
        LogError "Unexpected error: %s" [LStr "_csv.Error"];
        LogError text [] ].
Proof.
  intros Hvalidate Hbefore Hvalue.
  assert (parse_args (before ++ opt_bdn_arguments value :: after) =
          Raise (type_exception "_csv.Error" message)) as Hparse.
  { unfold parse_args. rewrite consume_optionals_app, Hbefore. simpl. by rewrite Hvalue. }
  split; [done |]. rewrite (main_aborted _ _ _ Hparse). simpl.
  rewrite Hvalidate. simpl. split; [done |]. by exists message.
Qed.

(** X8: the check of the runtime comes first, before the arguments are even
    parsed: it opens every trace, and when it raises, nothing follows it but
    the lines of the handler: no help, no usage message, no stage. *)
Theorem runtime_check_comes_first (argv : list cli_option) (d : gset string) :
  (∃ tail, trace (__main argv (initial d)).2 = ValidateSupportedRuntime :: tail) ∧
  (∀ x, respond [] ValidateSupportedRuntime = Some x →
        trace (__main argv (initial d)).2 = ValidateSupportedRuntime :: handler_log x ∧
        (__main argv (initial d)).1 = handler_result x).
Proof.
  destruct (parse_args argv) as [args | ab] eqn:Hparse.
  - destruct (parse_args_valid _ _ Hparse) as (_ & fs & Hfs & _).
    rewrite (main_parsed _ _ _ _ Hparse Hfs). unfold full_script.
    rewrite perform_cons, act_call. remember (main_script args fs) as script.
    simpl.
    destruct (respond [] ValidateSupportedRuntime) as [y |]; simpl.
    + split; [by eexists |]. by intros x [= ->].
    + split; [| done].
      destruct (perform_trace script (record ValidateSupportedRuntime (initial d)))
        as (finished & _ & _ & Htr & _).
      destruct (perform script _) as [[[] | ex] st']; simpl in *;
        rewrite Htr; by eexists.
  - rewrite (main_aborted _ _ _ Hparse). simpl.
    destruct (respond [] ValidateSupportedRuntime) as [y |]; simpl.
    + split; [by eexists |]. by intros x [= ->].
    + split; [by eexists | done].
Qed.

(** X9: a run that returns 0 has done exactly this, in this order: the
    check of the runtime, the set-up of the loggers, the information on the
    tool, the clean stage when the incremental flag is "no", and, each under
    its header, the restore, the build of all the targets, and one run per
    target with the same argument list. *)
Theorem successful_run_trace (argv : list cli_option) (d : gset string) :
  (__main argv (initial d)).1 = Ok 0%Z →
  ∃ args fs,
    parse_args argv = Ok args ∧ args_frameworks args = Some fs ∧
    trace (__main argv (initial d)).2 = expected_trace args fs.
Proof.
  intros Hok. destruct (parse_args argv) as [args | ab] eqn:Hparse.
  - destruct (parse_args_valid _ _ Hparse) as (_ & fs & Hfs & _).
    exists args, fs. split; [done |]. split; [done |].
    destruct (main_trace_parsed _ _ _ d Hparse Hfs)
      as (finished & rest & tail & Hsplit & -> & _ & Hdone).
    destruct (Hdone Hok) as [-> ->]. rewrite !app_nil_r in *. subst finished.
    apply events_full_script.
  - by destruct (main_trace_aborted _ _ d Hparse) as (_ & _ & _ & ?).
Qed.

Lemma perform_quiet s st :
  (∀ history e, respond history e = None) → (perform s st).1 = Ok ().
Proof.
  intros Hquiet. revert st. induction s as [|a s IH]; intros st; [done |].
  rewrite perform_cons.
  assert ((act a st).1 = Ok ()) as Ha.
  { destruct a as [e | e | path]; simpl; [done | |].
    - unfold call. by rewrite Hquiet.
    - unfold remove_directory. case_decide; [| done]. by rewrite Hquiet. }
  destruct (act a st) as [[[] | x] st']; [apply IH | done].
Qed.

(** X10: when no call raises, every command line that parses makes [__main]
    return 0. *)
Theorem quiet_run_returns_zero
    (argv : list cli_option) (args : Namespace) (d : gset string) :
  (∀ history e, respond history e = None) →
  parse_args argv = Ok args →
  (__main argv (initial d)).1 = Ok 0%Z.
Proof.
  intros Hquiet Hparse.
  destruct (parse_args_valid _ _ Hparse) as (_ & fs & Hfs & _).
  rewrite (main_parsed _ _ _ _ Hparse Hfs).
  pose proof (perform_quiet (full_script args fs) (initial d) Hquiet) as Hok.
  by destruct (perform (full_script args fs) (initial d)) as [[[] | x] st'].
Qed.

(** X11: [__main] returns 0 or 1, unless an exception that is no [Exception]
    and no [SystemExit] goes through it; and it returns 0 only when the
    arguments have parsed. *)
Theorem main_returns_zero_or_one (argv : list cli_option) (d : gset string) :
  ((__main argv (initial d)).1 = Ok 0%Z ∨
   (__main argv (initial d)).1 = Ok 1%Z ∨
   (__main argv (initial d)).1 = Raise KeyboardInterrupt) ∧
  ((__main argv (initial d)).1 = Ok 0%Z → ∃ args, parse_args argv = Ok args).
Proof.
  destruct (parse_args argv) as [args | ab] eqn:Hparse.
  - split; [| by eexists].
    destruct (parse_args_valid _ _ Hparse) as (_ & fs & Hfs & _).
    rewrite (main_parsed _ _ _ _ Hparse Hfs).
    destruct (perform (full_script args fs) (initial d)) as [[[] | x] st']; simpl;
      [by left |]. destruct x; auto.
  - destruct (main_trace_aborted _ _ d Hparse) as (_ & _ & _ & Hres).
    split; [| done]. rewrite (main_aborted _ _ _ Hparse). simpl.
    destruct (respond [] ValidateSupportedRuntime) as [x |]; simpl.
    + destruct x; auto.
    + destruct ab; auto.
Qed.

(** X12: what is logged after an effect that raises depends on the exception
    alone: one line with the command and its status for a failed process,
    one line with the error number, message and file for an I/O error, two
    lines for any other exception, and nothing for an exit. *)
Theorem failure_report
    (argv : list cli_option) (d : gset string) (pre : list event) (e : event)
    (post : list event) (x : exn) :
  trace (__main argv (initial d)).2 = pre ++ e :: post →
  fails (d ∖ removed pre) pre e = Some x →
  post =
    match x with
    | CalledProcessError cmd returncode =>
        [LogError ("Command: " +:+ String dquote
                     ("%s" +:+ String dquote ", exited with status: %s"))
                  [LStr cmd; LInt returncode]]
    | IOError errno strerror filename =>
        [LogError "I/O error (%s): %s: %s" [LInt errno; LStr strerror; LStr filename]]
    | SystemExit _ => []
    | Exception cls traceback =>
        [LogError "Unexpected error: %s" [LStr cls]; LogError traceback []]
    | KeyboardInterrupt => []
    end ∧
  (x ≠ KeyboardInterrupt → (__main argv (initial d)).1 = Ok 1%Z).
Proof.
  intros Htr Hfails. destruct (raise_point _ _ _ _ _ _ Htr Hfails) as [-> ->].
  split; [by destruct x |]. by destruct x.
Qed.

(** X13: every invocation of the restore, of the build and of a run comes
    right after the three lines of its header: a line of dashes as long as
    the title, the title, which names all the targets for the build and the
    one target for a run, and the same line of dashes. *)
Theorem stage_follows_its_header
    (argv : list cli_option) (d : gset string) (pre : list event) (e : event)
    (post : list event) :
  trace (__main argv (initial d)).2 = pre ++ e :: post →
  is_stage e = true →
  ∃ pre',
    pre = pre' ++
      [ LogInfo (str_repeat "-" (String.length (stage_title e)));
        LogInfo (stage_title e);
        LogInfo (str_repeat "-" (String.length (stage_title e))) ].
Proof.
  intros Htr He.
  destruct (parse_args argv) as [args | ab] eqn:Hparse.
  - destruct (parse_args_valid _ _ Hparse) as (_ & fs & Hfs & _).
    destruct (main_trace_parsed _ _ _ d Hparse Hfs)
      as (finished & rest & tail & Hsplit & Htrace & Htail & _).
    assert (headed (trace (__main argv (initial d)).2)) as Hheaded.
    { rewrite Htrace. apply headed_app.
      - apply (headed_prefix _ (event_of <$> rest)).
        rewrite <- fmap_app, <- Hsplit. apply headed_full_script.
      - apply headed_no_stage. eapply Forall_impl; [apply Htail |].
        by intros [] ?. }
    by apply (Hheaded pre e post).
  - destruct (main_trace_aborted _ _ d Hparse) as (tail & Htrace & Htail & _).
    rewrite Htrace in Htr.
    assert (e ∈ ValidateSupportedRuntime :: tail) as Hin.
    { rewrite Htr. apply elem_of_app. right. apply elem_of_cons. by left. }
    apply elem_of_cons in Hin as [-> | Hin]; [done |].
    rewrite Forall_forall in Htail. apply Htail in Hin as (? & _). congruence.
Qed.

(** X14: in every run, failed or not, the invocations of the external tool
    are the first ones of this list: the restore into the packages
    directory, the build of all the stored targets, then one run per stored
    target in their order, all with the configuration and the verbosity of
    the arguments; and a run that returns 0 has made them all. *)
Theorem stages_in_order
    (argv : list cli_option) (args : Namespace) (fs : list string) (d : gset string) :
  parse_args argv = Ok args → args_frameworks args = Some fs →
  List.filter is_stage (trace (__main argv (initial d)).2) `prefix_of`
    Restore (path_join repo_root "packages") (args_verbose args) ::
    Build (args_configuration args) fs (args_verbose args) ::
    ((λ f, Run (args_configuration args) f (args_verbose args) (run_args args)) <$> fs) ∧
  ((__main argv (initial d)).1 = Ok 0%Z →
   List.filter is_stage (trace (__main argv (initial d)).2) =
    Restore (path_join repo_root "packages") (args_verbose args) ::
    Build (args_configuration args) fs (args_verbose args) ::
    ((λ f, Run (args_configuration args) f (args_verbose args) (run_args args)) <$> fs)).
Proof.
  intros Hparse Hfs.
  destruct (main_trace_parsed _ _ _ d Hparse Hfs)
    as (finished & rest & tail & Hsplit & -> & Htail & Hdone).
  pose proof (stage_events_script args fs) as Hall.
  rewrite Hsplit, fmap_app, List.filter_app in Hall.
  rewrite List.filter_app, (filter_none is_stage tail), app_nil_r.
  - change (Restore (path_join repo_root "packages") (args_verbose args) ::
            Build (args_configuration args) fs (args_verbose args) ::
            ((λ f, Run (args_configuration args) f (args_verbose args) (run_args args))
               <$> fs))
      with (expected_stages args fs).
    rewrite <- Hall. split; [by eexists |].
    intros Hok. destruct (Hdone Hok) as [-> _]. simpl. by rewrite app_nil_r.
  - eapply Forall_impl; [apply Htail |]. by intros [] ?.
Qed.

End more_runs.

(** ** The further properties on concrete command lines *)

Lemma parsed_namespace_example :
  ∃ args,
    @parse_args ascii_runtime posix_host example_argv = Ok args ∧
    args_configuration args ∈ ["Release"; "Debug"] ∧
    args_incremental args ∈ ["yes"; "no"] ∧
    (∀ c, args_category args = Some c → c ∈ ["coreclr"; "corefx"]).
Proof.
  eexists. split; [vm_compute; reflexivity |].
  assert (@parse_args ascii_runtime posix_host example_argv =
          Ok {| args_verbose := false; args_configuration := "Release";
                args_frameworks := Some ["netcoreapp3.0"]; args_incremental := "yes";
                args_enable_pmc := true; args_category := Some "coreclr";
                args_filter := Some ["*Sort*"; "*Hash*"];
                args_corerun := Some "/opt/coreclr/corerun"; args_cli := None;
                args_bdn_arguments := Some ["--iterations"; "5"] |}) as Hparse.
  { vm_compute. reflexivity. }
  destruct (@parsed_namespace_invariant ascii_runtime posix_host example_argv _ Hparse)
    as (Hc & Hi & _ & Hcat & _).
  split; [exact Hc |]. split; [exact Hi | exact Hcat].
Defined.

Lemma last_frameworks_example :
  args_frameworks
    {| args_verbose := true; args_configuration := "Release";
       args_frameworks := Some ["netcoreapp3.0"]; args_incremental := "yes";
       args_enable_pmc := false; args_category := None; args_filter := None;
       args_corerun := None; args_cli := None; args_bdn_arguments := None |}
    = Some (@set_to_list ascii_runtime ["netcoreapp3.0"; "netcoreapp3.0"]).
Proof.
  apply (@last_frameworks_option_wins ascii_runtime posix_host
           [opt_frameworks ["netcoreapp2.0"]] [opt_verbose]
           ["netcoreapp3.0"; "netcoreapp3.0"]).
  - vm_compute. reflexivity.
  - reflexivity.
Defined.

Lemma missing_corerun_example :
  (∃ ab, @parse_args ascii_runtime posix_host
           [opt_frameworks ["netcoreapp3.0"]; opt_corerun "/nowhere/corerun"] = Raise ab) ∧
  (@__main ascii_runtime posix_host quiet_world
     [opt_frameworks ["netcoreapp3.0"]; opt_corerun "/nowhere/corerun"] (initial ∅)).1
    ≠ Ok 0%Z.
Proof.
  destruct (@missing_file_stops_before_any_stage ascii_runtime posix_host quiet_world
              [opt_frameworks ["netcoreapp3.0"]; opt_corerun "/nowhere/corerun"]
              "/nowhere/corerun" ∅) as (_ & _ & Hparse & Hres & _).
  - left. apply elem_of_cons. right. apply elem_of_cons. by left.
  - reflexivity.
  - split; [exact Hparse | exact Hres].
Defined.

Lemma round_trip_example :
  ∃ tokens,
    __get_bdn_arguments "--iterations 5  " = Ok tokens ∧
    join " " tokens = "--iterations 5  " ∧
    length tokens = 4.
Proof.
  apply (bdn_arguments_round_trip "--iterations 5  ");
    [reflexivity | discriminate |]. vm_compute. discriminate.
Defined.

Lemma carriage_return_example :
  __get_bdn_arguments ("--iterations" +:+ String "013" (String "5" "")) =
    Raise "new-line character seen in unquoted field - do you need to open the file in universal-newline mode?".
Proof.
  apply (bdn_arguments_carriage_return "--iterations" "5" "");
    [reflexivity | reflexivity | reflexivity |]. vm_compute. discriminate.
Defined.

Lemma tokenizer_error_example :
  (@__main ascii_runtime posix_host quiet_world
     ([opt_frameworks ["netcoreapp3.0"]] ++
      opt_bdn_arguments ("--iterations" +:+ String "013" (String "5" "")) :: [])
     (initial ∅)).1 = Ok 1%Z.
Proof.
  destruct (@tokenizer_error_is_unexpected ascii_runtime posix_host quiet_world
              [opt_frameworks ["netcoreapp3.0"]] []
              ("--iterations" +:+ String "013" (String "5" ""))
              "new-line character seen in unquoted field - do you need to open the file in universal-newline mode?"
              {| args_verbose := false; args_configuration := "Release";
                 args_frameworks := Some ["netcoreapp3.0"]; args_incremental := "yes";
                 args_enable_pmc := false; args_category := None; args_filter := None;
                 args_corerun := None; args_cli := None; args_bdn_arguments := None |}
              ∅) as (_ & Hres & _).
  - reflexivity.
  - vm_compute. reflexivity.
  - vm_compute. reflexivity.
  - exact Hres.
Defined.

Lemma successful_trace_example :
  ∃ args fs,
    @parse_args ascii_runtime posix_host [opt_frameworks ["netcoreapp3.0"]] = Ok args ∧
    args_frameworks args = Some fs ∧
    trace (@__main ascii_runtime posix_host quiet_world
             [opt_frameworks ["netcoreapp3.0"]] (initial ∅)).2 =
      @expected_trace posix_host args fs.
Proof.
  apply (@successful_run_trace ascii_runtime posix_host quiet_world
           [opt_frameworks ["netcoreapp3.0"]] ∅).
  vm_compute. reflexivity.
Defined.

Lemma quiet_run_example :
  (@__main ascii_runtime posix_host quiet_world
     [opt_frameworks ["netcoreapp3.0"]; opt_incremental "no"] (initial ∅)).1 = Ok 0%Z.
Proof.
  apply (@quiet_run_returns_zero ascii_runtime posix_host quiet_world
           [opt_frameworks ["netcoreapp3.0"]; opt_incremental "no"]
           {| args_verbose := false; args_configuration := "Release";
              args_frameworks := Some ["netcoreapp3.0"]; args_incremental := "no";
              args_enable_pmc := false; args_category := None; args_filter := None;
              args_corerun := None; args_cli := None; args_bdn_arguments := None |}).
  - intros history e. reflexivity.
  - vm_compute. reflexivity.
Defined.

Lemma failure_report_example :
  trace (@__main ascii_runtime posix_host failing_restore
           [opt_frameworks ["netcoreapp3.0"]] (initial ∅)).2 =
    [ValidateSupportedRuntime; SetupLoggers false; DotnetInfo false;
     LogInfo "-------------------------------";
     LogInfo "Restoring .NET micro benchmarks";
     LogInfo "-------------------------------"] ++
    Restore "/repo/packages" false ::
    [LogError ("Command: " +:+ String dquote ("%s" +:+ String dquote ", exited with status: %s"))
       [LStr "dotnet restore"; LInt 1]] ∧
  (@__main ascii_runtime posix_host failing_restore
     [opt_frameworks ["netcoreapp3.0"]] (initial ∅)).1 = Ok 1%Z.
Proof.
  assert (trace (@__main ascii_runtime posix_host failing_restore
                   [opt_frameworks ["netcoreapp3.0"]] (initial ∅)).2 =
            [ValidateSupportedRuntime; SetupLoggers false; DotnetInfo false;
             LogInfo "-------------------------------";
             LogInfo "Restoring .NET micro benchmarks";
             LogInfo "-------------------------------"] ++
            Restore "/repo/packages" false ::
            [LogError ("Command: " +:+ String dquote
                         ("%s" +:+ String dquote ", exited with status: %s"))
               [LStr "dotnet restore"; LInt 1]]) as Htrace.
  { vm_compute. reflexivity. }
  split; [exact Htrace |].
  apply (proj2 (@failure_report ascii_runtime posix_host failing_restore
                  [opt_frameworks ["netcoreapp3.0"]] ∅ _ _ _
                  (CalledProcessError "dotnet restore" 1) Htrace
                  ltac:(vm_compute; reflexivity))).
  discriminate.
Defined.

Lemma restore_header_example :
  ∃ pre',
    [ValidateSupportedRuntime; SetupLoggers false; DotnetInfo false;
     LogInfo "-------------------------------";
     LogInfo "Restoring .NET micro benchmarks";
     LogInfo "-------------------------------"] =
    pre' ++
      [ LogInfo (str_repeat "-" (String.length (stage_title (Restore "/repo/packages" false))));
        LogInfo (stage_title (Restore "/repo/packages" false));
        LogInfo (str_repeat "-" (String.length (stage_title (Restore "/repo/packages" false)))) ].
Proof.
  apply (@stage_follows_its_header ascii_runtime posix_host failing_restore
           [opt_frameworks ["netcoreapp3.0"]] ∅ _ (Restore "/repo/packages" false)
           [LogError ("Command: " +:+ String dquote
                        ("%s" +:+ String dquote ", exited with status: %s"))
              [LStr "dotnet restore"; LInt 1]]).
  - vm_compute. reflexivity.
  - reflexivity.
Defined.

Lemma stages_in_order_example :
  List.filter is_stage
    (trace (@__main ascii_runtime posix_host quiet_world
              [opt_frameworks ["netcoreapp3.0"; "netcoreapp2.2"]] (initial ∅)).2) =
  [ Restore "/repo/packages" false;
    Build "Release" ["netcoreapp3.0"; "netcoreapp2.2"] false;
    Run "Release" "netcoreapp3.0" false ["--"];
    Run "Release" "netcoreapp2.2" false ["--"] ].
Proof.
  apply (proj2 (@stages_in_order ascii_runtime posix_host quiet_world
                  [opt_frameworks ["netcoreapp3.0"; "netcoreapp2.2"]]
                  {| args_verbose := false; args_configuration := "Release";
                     args_frameworks := Some ["netcoreapp3.0"; "netcoreapp2.2"];
                     args_incremental := "yes"; args_enable_pmc := false;
                     args_category := None; args_filter := None; args_corerun := None;
                     args_cli := None; args_bdn_arguments := None |}
                  ["netcoreapp3.0"; "netcoreapp2.2"] ∅
                  ltac:(vm_compute; reflexivity) eq_refl)).
  vm_compute. reflexivity.
Defined.

(** * The target list, from the command line to the Run stage *)

Section target_list.
Context `{PyRuntime} `{Host} `{World}.

Local Notation "'supported'" := TargetFrameworkAction.get_supported_target_frameworks.

(** C2, as the code has it: a non-empty list of supported targets passes the
    parser's check against the choices and the check of the action, whatever
    the namespace held before, and what is stored is the list of the
    elements of its set: every given target once, in the order in which the
    set yields them.  Given alone, the list makes the command line parse.
    On every command line that parses and on which it is the last target
    list, the Run stage is invoked for the stored targets in the stored
    order: for a first part of them whatever happens, for all of them, each
    once, when [__main] returns 0, which it does when no call raises. *)
Theorem targets_deduplicated_and_run_in_stored_order (values : list string) :
  values ≠ [] →
  Forall (λ f, f ∈ supported) values →
  ∃ fs,
    fs = set_to_list values ∧
    NoDup fs ∧ (∀ f, f ∈ fs ↔ f ∈ values) ∧
    _check_values "-f/--frameworks" supported values = Ok () ∧
    (∀ current, TargetFrameworkAction.__call__ current values = Ok (Some fs)) ∧
    (∀ ns, take_action ns (opt_frameworks values) = Ok (set_frameworks (Some fs) ns)) ∧
    parse_args [opt_frameworks values] = Ok (set_frameworks (Some fs) default_namespace) ∧
    ∀ before after args d,
      parse_args (before ++ opt_frameworks values :: after) = Ok args →
      existsb is_opt_frameworks after = false →
      args_frameworks args = Some fs ∧
      run_targets
        (trace (__main (before ++ opt_frameworks values :: after) (initial d)).2)
        `prefix_of` fs ∧
      ((__main (before ++ opt_frameworks values :: after) (initial d)).1 = Ok 0%Z →
       run_targets
         (trace (__main (before ++ opt_frameworks values :: after) (initial d)).2) = fs) ∧
      ((∀ history e, respond history e = None) →
       (__main (before ++ opt_frameworks values :: after) (initial d)).1 = Ok 0%Z ∧
       run_targets
         (trace (__main (before ++ opt_frameworks values :: after) (initial d)).2) = fs).
Proof.
  intros Hne Hall. exists (set_to_list values).
  split; [done |]. split; [apply set_to_list_NoDup |].
  split; [intros f; apply set_to_list_elem |].
  destruct values as [|v values]; [done |].
  pose proof (check_values_ok "-f/--frameworks" _ Hall) as Hcheck.
  assert (∀ current, TargetFrameworkAction.__call__ current (v :: values) =
                     Ok (Some (set_to_list (v :: values)))) as Hcall.
  { intros current. by apply call_valid. }
  assert (∀ ns, take_action ns (opt_frameworks (v :: values)) =
                Ok (set_frameworks (Some (set_to_list (v :: values))) ns)) as Htake.
  { intros ns. unfold take_action. by rewrite Hcheck, Hcall. }
  repeat (split; [done |]).
  split.
  { unfold parse_args. cbn [consume_optionals]. by rewrite Htake. }
  intros before after args d Hparse Hafter.
  assert (args_frameworks args = Some (set_to_list (v :: values))) as Hfs.
  { pose proof Hparse as Hparse'. unfold parse_args in Hparse'.
    destruct (consume_optionals default_namespace _) as [ns |] eqn:Hcons; [| done].
    assert (args = ns) as ->.
    { destruct (negb _); [done |]. by destruct (unrecognized _); simplify_eq. }
    rewrite consume_optionals_app in Hcons.
    destruct (consume_optionals default_namespace before) as [ns1 |]; [| done].
    cbn [consume_optionals] in Hcons. rewrite Htake in Hcons.
    by rewrite (consume_optionals_other_frameworks _ _ _ Hafter Hcons). }
  destruct (run_targets_stored _ _ _ d Hparse Hfs) as [Hprefix Hall_run].
  repeat (split; [done |]).
  intros Hquiet.
  assert ((__main (before ++ opt_frameworks (v :: values) :: after) (initial d)).1 = Ok 0%Z)
    as Hzero.
  { rewrite (main_parsed _ _ _ _ Hparse Hfs).
    pose proof (perform_quiet (full_script args (set_to_list (v :: values)))
                  (initial d) Hquiet) as Hok.
    by destruct (perform (full_script args (set_to_list (v :: values))) (initial d))
      as [[[] | x] st']. }
  split; [done | by apply Hall_run].
Qed.

End target_list.

(** The specification's example of duplicates: the target given twice is
    accepted by the parser, stored once, and run once. *)
Lemma duplicate_targets_example :
  ∃ fs,
    fs = ["netcoreapp3.0"] ∧ NoDup fs ∧
    @parse_args ascii_runtime posix_host
      [opt_frameworks ["netcoreapp3.0"; "netcoreapp3.0"]] =
      Ok (set_frameworks (Some fs) default_namespace) ∧
    (@__main ascii_runtime posix_host quiet_world
       [opt_frameworks ["netcoreapp3.0"; "netcoreapp3.0"]] (initial ∅)).1 = Ok 0%Z ∧
    run_targets
      (trace (@__main ascii_runtime posix_host quiet_world
                [opt_frameworks ["netcoreapp3.0"; "netcoreapp3.0"]] (initial ∅)).2) = fs.
Proof.
  destruct (@targets_deduplicated_and_run_in_stored_order ascii_runtime posix_host
              quiet_world ["netcoreapp3.0"; "netcoreapp3.0"])
    as (fs & Hfs & Hnodup & _ & _ & _ & _ & Hparse & Hrun).
  - discriminate.
  - repeat constructor.
  - exists fs.
    destruct (Hrun [] [] _ ∅ Hparse eq_refl) as (_ & _ & _ & Hquiet).
    destruct (Hquiet (λ _ _, eq_refl)) as [Hzero Htargets].
    split; [rewrite Hfs; vm_compute; reflexivity |].
    split; [exact Hnodup |]. split; [exact Hparse |].
    split; [exact Hzero | exact Htargets].
Defined.
